(** * Regupulse scanner: a shallow embedding of the harvesting pipeline

    The scanning function (fetch with retry, feed parser, site scraper,
    content enricher, deduplicator, source-health bookkeeping) is embedded
    function by function.  JavaScript strings are modelled by [string]; a
    character stands for one UTF-16 code unit below 256, on which the string
    built-ins used by the program ([trim], [toLowerCase], the [\s] class) are
    written out in full.  Engines that live outside the program (regular
    expressions given as patterns, the XML and HTML parsers, date parsing,
    the network) are fields of a [Platform] or arguments. *)

From Stdlib Require Import ZArith Lia Ascii String List.
From stdpp Require Import base decidable option list strings gmap pretty.

Local Open Scope Z_scope.
Set Warnings "-register-all,-abstract-large-number,-clear-no-such-hyp".

(* ===================================================================== *)
(** * String built-ins                                                    *)
(* ===================================================================== *)

(** White space as [String.prototype.trim] and the regex class [\s] see it,
    restricted to code units below 256: TAB, LF, VT, FF, CR, SPACE, NBSP. *)
Definition isWhiteSpace (c : ascii) : bool :=
  let n := N_of_ascii c in
  (((9 <=? n) && (n <=? 13)) || (n =? 32) || (n =? 160))%N.

Fixpoint trimStart (s : string) : string :=
  match s with
  | EmptyString => EmptyString
  | String c s' => if isWhiteSpace c then trimStart s' else s
  end.

Fixpoint trimEnd (s : string) : string :=
  match s with
  | EmptyString => EmptyString
  | String c s' =>
      match trimEnd s' with
      | EmptyString => if isWhiteSpace c then EmptyString else String c EmptyString
      | t => String c t
      end
  end.

(** [s.trim()] *)
Definition trim (s : string) : string := trimEnd (trimStart s).

(** Lower-casing of one code unit below 256: A-Z and the Latin-1 capitals
    U+00C0..U+00DE (the multiplication sign U+00D7 apart) move up by 32. *)
Definition lowerChar (c : ascii) : ascii :=
  let n := N_of_ascii c in
  if (((65 <=? n) && (n <=? 90)) ||
      ((192 <=? n) && (n <=? 222) && negb (n =? 215)))%N
  then ascii_of_N (n + 32) else c.

(** [s.toLowerCase()] *)
Fixpoint toLowerCase (s : string) : string :=
  match s with
  | EmptyString => EmptyString
  | String c s' => String (lowerChar c) (toLowerCase s')
  end.

(** [s.startsWith(p)] *)
Definition startsWith (s p : string) : bool := String.prefix p s.

(** [s.includes(sub)] *)
Fixpoint includes (s sub : string) : bool :=
  String.prefix sub s ||
  match s with
  | EmptyString => false
  | String _ s' => includes s' sub
  end.

Fixpoint containsChar (c : ascii) (s : string) : bool :=
  match s with
  | EmptyString => false
  | String d s' => Ascii.eqb d c || containsChar c s'
  end.

(** [s.replace(/<[^>]*>/g, '')].  A match starts at a ['<'] that has a
    ['>'] somewhere after it and runs up to the first such ['>']; a ['<']
    with no ['>'] behind it is kept.  [inTag] says that the scan is inside a
    match. *)
Fixpoint stripTagsFrom (inTag : bool) (s : string) : string :=
  match s with
  | EmptyString => EmptyString
  | String c s' =>
      if inTag then stripTagsFrom (negb (Ascii.eqb c ">")) s'
      else if Ascii.eqb c "<" && containsChar ">" s' then stripTagsFrom true s'
      else String c (stripTagsFrom false s')
  end.

Definition stripTags (s : string) : string := stripTagsFrom false s.

(** [s.replace(/\s+/g, ' ')]: [inRun] says that the previous code unit was
    white space, already replaced. *)
Fixpoint collapseFrom (inRun : bool) (s : string) : string :=
  match s with
  | EmptyString => EmptyString
  | String c s' =>
      if isWhiteSpace c
      then if inRun then collapseFrom true s' else String " " (collapseFrom true s')
      else String c (collapseFrom false s')
  end.

Definition collapseWhiteSpace (s : string) : string := collapseFrom false s.

(** Truthiness of a string, and [a || b] on strings that may be absent. *)
Definition truthyStr (s : string) : bool :=
  match s with EmptyString => false | _ => true end.

Definition truthyOpt (o : option string) : bool :=
  match o with Some s => truthyStr s | None => false end.

Definition orStr (a b : string) : string := if truthyStr a then a else b.

Definition orOpt (a : option string) (b : option string) : option string :=
  if truthyOpt a then a else b.

(** [o || ''] *)
Definition orEmpty (o : option string) : string :=
  match o with Some s => s | None => EmptyString end.

(* ===================================================================== *)
(** * Thrown exceptions                                                   *)
(* ===================================================================== *)

Inductive Result (A : Type) : Type :=
| Ok (a : A)
| Throw (msg : string).
Arguments Ok {A} a.
Arguments Throw {A} msg.

Global Instance Result_bind : MBind Result := λ A B k r,
  match r with
  | Ok a => k a
  | Throw m => Throw m
  end.

(* ===================================================================== *)
(** * Deduplicator                                                        *)
(* ===================================================================== *)

(** A candidate article as the pipeline passes it around.  A field that is
    [undefined] on the object is [None]. *)
Record Item := mkItem {
  title : option string;
  link : option string;
  description : option string;
  pubDate : option string;
  author : option string;
  source : string;
  fullContent : option string
}.

(** A persisted update, as far as deduplication reads it. *)
Record RegulatoryUpdate := mkUpdate {
  u_title : option string;
  u_source_url : option string;
  u_created : Z
}.

(** The update store.  [store_up = false] models a query that rejects. *)
Record UpdateStore := mkStore {
  store_up : bool;
  store_records : list RegulatoryUpdate
}.

(** [entities.RegulatoryUpdate.filter({})]: the empty predicate selects every
    record. *)
Definition RegulatoryUpdate_filter_all (st : UpdateStore)
  : Result (list RegulatoryUpdate) :=
  if store_up st then Ok (store_records st) else Throw "store unavailable".

(** [x?.toLowerCase().trim()] *)
Definition normKey (x : option string) : option string :=
  (fun s => trim (toLowerCase s)) <$> x.

Definition titleKey (it : Item) : option string := normKey (title it).
Definition urlKey (it : Item) : option string := normKey (link it).

(** The callback of the first [items.filter], with its two sets threaded
    through the walk. *)
Fixpoint batchFilter (seenInBatch seenUrlsInBatch : gset (option string))
    (items : list Item) : list Item :=
  match items with
  | [] => []
  | item :: rest =>
      let tk := titleKey item in
      let uk := urlKey item in
      if bool_decide (tk ∈ seenInBatch) then
        batchFilter seenInBatch seenUrlsInBatch rest
      else if truthyOpt uk && bool_decide (uk ∈ seenUrlsInBatch) then
        batchFilter seenInBatch seenUrlsInBatch rest
      else
        item :: batchFilter ({[tk]} ∪ seenInBatch)
                  (if truthyOpt uk then {[uk]} ∪ seenUrlsInBatch
                   else seenUrlsInBatch)
                  rest
  end.

Definition batchDedupe (items : list Item) : list Item :=
  batchFilter ∅ ∅ items.

(** [list.map(f).filter(Boolean)] collected into a [Set]. *)
Definition keySet {A} (f : A -> option string) (l : list A)
  : gset (option string) :=
  list_to_set (filter (fun k => truthyOpt k = true) (f <$> l)).

(** The callback of the second [filter]: the item matches no record. *)
Definition notInHistory (existingTitles existingUrls : gset (option string))
    (item : Item) : bool :=
  let normalizedTitle := titleKey item in
  let normalizedUrl := urlKey item in
  if bool_decide (normalizedTitle ∈ existingTitles) then false
  else if truthyOpt normalizedUrl && bool_decide (normalizedUrl ∈ existingUrls)
  then false
  else true.

Definition msPerDay : Z := 86400000.

(** [d.setDate(d.getDate() - n)] on a time stamp in milliseconds (in UTC,
    where a day has 86 400 000 ms). *)
Definition daysBefore (now : Z) (n : Z) : Z := now - n * msPerDay.

(** [newUrls] and [newTitles] of the source are built and never read; they
    are left out.  [sixtyDaysAgo] is kept: it is computed and never used. *)
Definition deduplicateItems (now : Z) (items : list Item) (st : UpdateStore)
  : list Item :=
  let batchDeduped := batchDedupe items in
  if (length batchDeduped =? 0)%nat then []
  else
    let sixtyDaysAgo := daysBefore now 60 in
    match RegulatoryUpdate_filter_all st with
    | Throw _ => batchDeduped
    | Ok existingUpdates =>
        let existingUpdates :=
          if (500 <? length existingUpdates)%nat
          then take 500 existingUpdates else existingUpdates in
        let existingTitles :=
          keySet (fun u => normKey (u_title u)) existingUpdates in
        let existingUrls :=
          keySet (fun u => normKey (u_source_url u)) existingUpdates in
        filter (λ item, notInHistory existingTitles existingUrls item = true)
               batchDeduped
    end.

(* ===================================================================== *)
(** * Retrying fetcher                                                    *)
(* ===================================================================== *)

Record Response := mkResponse {
  status : Z;
  retryAfter : option string;   (* response.headers.get('Retry-After') *)
  body : string                 (* await response.text() *)
}.

(** [response.ok] *)
Definition ok (r : Response) : bool :=
  (200 <=? status r) && (status r <=? 299).

(** What one [await fetch(url, ...)] does: it resolves with a response, or
    rejects (network failure, or the 15 second abort) with [err.message]. *)
Inductive FetchOutcome :=
| Responded (r : Response)
| Rejected (message : string).

(** The network as one call of [fetchWithRetry] meets it: the outcome of the
    attempt with a given index on a given URL, and [Date.now()] read during
    that attempt. *)
Record Network := mkNetwork {
  respond : string -> nat -> FetchOutcome;
  dateNow : nat -> Z
}.

Inductive NetEvent :=
| EvFetch (url : string)
| EvSleep (ms : Z).

Inductive FetchResult :=
| FetchOk (response : Response) (attempt : nat)
| FetchFailed (error : option string) (attempt : nat).

Definition success (r : FetchResult) : bool :=
  match r with FetchOk _ _ => true | FetchFailed _ _ => false end.

Definition attemptOf (r : FetchResult) : nat :=
  match r with FetchOk _ a => a | FetchFailed _ a => a end.

Definition digitVal (c : ascii) : option Z :=
  let n := N_of_ascii c in
  if ((48 <=? n) && (n <=? 57))%N then Some (Z.of_N n - 48) else None.

Fixpoint parseDigits (acc : option Z) (s : string) : option Z :=
  match s with
  | EmptyString => acc
  | String c s' =>
      match digitVal c with
      | Some d => parseDigits (Some (10 * default 0 acc + d)) s'
      | None => acc
      end
  end.

(** [parseInt(s, 10)]; [None] is [NaN]. *)
Definition parseInt10 (s : string) : option Z :=
  match trimStart s with
  | String "-" s' => Z.opp <$> parseDigits None s'
  | String "+" s' => parseDigits None s'
  | s' => parseDigits None s'
  end.

(** [`HTTP ${response.status}`] *)
Definition httpError (st : Z) : string := "HTTP " +:+ pretty st.

(** Number of fetches in a log. *)
Fixpoint fetchCount (log : list NetEvent) : nat :=
  match log with
  | [] => 0
  | EvFetch _ :: rest => S (fetchCount rest)
  | EvSleep _ :: rest => fetchCount rest
  end.

(* ===================================================================== *)
(** * Parsed XML and the DOM                                              *)
(* ===================================================================== *)

(** A value of the XML parser's output tree (numbers are integers). *)
Inductive JsVal :=
| VUndef
| VNull
| VBool (b : bool)
| VNum (n : Z)
| VStr (s : string)
| VArr (l : list JsVal)
| VObj (fields : list (string * JsVal)).

Definition truthy (v : JsVal) : bool :=
  match v with
  | VUndef | VNull => false
  | VBool b => b
  | VNum n => negb (n =? 0)
  | VStr s => truthyStr s
  | VArr _ | VObj _ => true
  end.

Fixpoint assoc (k : string) (fields : list (string * JsVal)) : JsVal :=
  match fields with
  | [] => VUndef
  | (k', v) :: rest => if String.eqb k k' then v else assoc k rest
  end.

(** [v[k]] for a receiver that is neither [undefined] nor [null], for the
    property names the program reads (none of them is inherited by a string,
    a number or an array with a value that [extractTextContent] would turn
    into text). *)
Definition getProp (v : JsVal) (k : string) : JsVal :=
  match v with
  | VObj fields => assoc k fields
  | _ => VUndef
  end.

(** [v.k]: a [TypeError] on [undefined] and [null]. *)
Definition member (v : JsVal) (k : string) : Result JsVal :=
  match v with
  | VUndef | VNull => Throw "TypeError"
  | _ => Ok (getProp v k)
  end.

(** [v?.k] *)
Definition optMember (v : JsVal) (k : string) : JsVal :=
  match v with
  | VUndef | VNull => VUndef
  | _ => getProp v k
  end.

Fixpoint joinWith (sep : string) (l : list string) : string :=
  match l with
  | [] => ""
  | [x] => x
  | x :: rest => x +:+ sep +:+ joinWith sep rest
  end.

(** [String(v)] *)
Fixpoint String_ (v : JsVal) : string :=
  match v with
  | VUndef => "undefined"
  | VNull => "null"
  | VBool true => "true"
  | VBool false => "false"
  | VNum n => pretty n
  | VStr s => s
  | VArr l =>
      joinWith ","
        (map (λ x, match x with VUndef | VNull => "" | _ => String_ x end) l)
  | VObj _ => "[object Object]"
  end.

(** [Array.isArray(x) ? x : [x]] *)
Definition asArray (v : JsVal) : list JsVal :=
  match v with VArr l => l | _ => [v] end.

(** A DOM element (or the document), as the program queries it. *)
Inductive Element := mkElement {
  tagName : string;
  textContent : string;
  getAttribute : string -> option string;
  querySelector : string -> Result (option Element);
  querySelectorAll : string -> Result (list Element);
  closest : string -> Result (option Element)
}.

Record RegExp := mkRegExp { re_source : string; re_flags : string }.

(** A match: element [i] is the text of group [i] ([None]: the group took no
    part in the match). *)
Definition Captures := list (option string).

(** [match[i]] *)
Definition group (m : Captures) (i : nat) : option string :=
  default None (m !! i).

(** The engines the program calls but does not contain. *)
Class Platform := {
  (** [new Date(s).getTime()]; [None] is [NaN], the invalid date *)
  Date_parse : string -> option Z;
  (** [new URL(s).origin] *)
  URL_origin : string -> Result string;
  (** [parseXML(text)] of deno xml *)
  parseXML : string -> Result JsVal;
  (** [new DOMParser().parseFromString(html, "text/html")]; [Ok None] is
      [null] *)
  parseFromString : string -> Result (option Element);
  (** [[...text.matchAll(re)]] for a global pattern *)
  matchAll : RegExp -> string -> list Captures;
  (** [text.match(re)] for a pattern without the [g] flag *)
  reMatch : RegExp -> string -> option Captures;
  (** [new Date(ms).toISOString()] *)
  toISOString : Z -> string
}.

Section Program.
Context `{Platform}.
Variable net : Network.

(** [waitTime] of the 429 branch. *)
Definition retryWait (attempt : nat) (response : Response) : Z :=
  let waitTime := 2 ^ Z.of_nat attempt * 1000 in
  if truthyOpt (retryAfter response) then
    let retryAfter := orEmpty (retryAfter response) in
    match parseInt10 retryAfter with
    | Some parsed => parsed * 1000
    | None =>
        match Date_parse retryAfter with
        | Some retryDate => Z.max 0 (retryDate - dateNow net attempt)
        | None => waitTime
        end
    end
  else waitTime.

(** The [for] loop of [fetchWithRetry]; [fuel] is [maxRetries - attempt].
    The result comes with the fetches and sleeps performed, in order. *)
Fixpoint fetchLoop (url : string) (maxRetries fuel attempt : nat)
    (lastError : option string) : FetchResult * list NetEvent :=
  match fuel with
  | O => (FetchFailed lastError maxRetries, [])
  | S fuel' =>
      let backoff (lastError : option string) :=
        if (attempt + 1 <? maxRetries)%nat then
          let '(r, log) := fetchLoop url maxRetries fuel' (S attempt) lastError in
          (r, EvFetch url :: EvSleep (2 ^ Z.of_nat attempt * 1000) :: log)
        else
          let '(r, log) := fetchLoop url maxRetries fuel' (S attempt) lastError in
          (r, EvFetch url :: log) in
      match respond net url attempt with
      | Rejected message => backoff (Some message)
      | Responded response =>
          if ok response then (FetchOk response (attempt + 1), [EvFetch url])
          else if (status response =? 429) && (attempt + 1 <? maxRetries)%nat then
            let '(r, log) := fetchLoop url maxRetries fuel' (S attempt) lastError in
            (r, EvFetch url :: EvSleep (retryWait attempt response) :: log)
          else if (400 <=? status response) && (status response <? 500) then
            (FetchFailed (Some (httpError (status response))) (attempt + 1),
             [EvFetch url])
          else backoff (Some (httpError (status response)))
      end
  end.

Definition fetchWithRetry (url : string) (maxRetries : nat)
  : FetchResult * list NetEvent :=
  fetchLoop url maxRetries maxRetries 0 None.

(* ===================================================================== *)
(** * Feed parser                                                         *)
(* ===================================================================== *)

(** An item as the parser emits it.  [title], [description] and [pubDate]
    are strings by construction; [link] is whatever the tree holds. *)
Record FeedItem := mkFeedItem {
  f_title : string;
  f_link : JsVal;
  f_description : string;
  f_pubDate : string;
  f_source : string
}.

Definition extractTextContent (value : JsVal) : string :=
  if negb (truthy value) then ""
  else match value with
       | VStr s => stripTags (trim s)
       | _ =>
           if truthy (getProp value "#text")
           then stripTags (trim (String_ (getProp value "#text")))
           else if truthy (getProp value "#cdata")
           then stripTags (trim (String_ (getProp value "#cdata")))
           else ""
       end.

(** [a || b] on values. *)
Definition orVal (a b : JsVal) : JsVal := if truthy a then a else b.

(** The body of the RSS 2.0 loop: [None] when nothing is pushed. *)
Definition rssItem (feedName : string) (item : JsVal) : Result (option FeedItem) :=
  t ← member item "title";
  let title := extractTextContent t in
  let link := orVal (VStr (extractTextContent (getProp item "link")))
                (orVal (optMember (getProp item "link") "@href") (VStr "")) in
  let description := extractTextContent (getProp item "description") in
  let pubDate := orStr (extractTextContent (getProp item "pubDate"))
                   (extractTextContent (getProp item "dc:date")) in
  if truthyStr title
  then Ok (Some (mkFeedItem title link description pubDate feedName))
  else Ok None.

(** [links.find(l => l['@type'] === 'text/html' || l['@rel'] === 'alternate')] *)
Fixpoint findHtmlLink (links : list JsVal) : Result JsVal :=
  match links with
  | [] => Ok VUndef
  | l :: rest =>
      ty ← member l "@type";
      match ty with
      | VStr "text/html" => Ok l
      | _ =>
          match getProp l "@rel" with
          | VStr "alternate" => Ok l
          | _ => findHtmlLink rest
          end
      end
  end.

Definition atomLink (entry : JsVal) : Result JsVal :=
  let l := getProp entry "link" in
  if truthy l then
    match l with
    | VArr links =>
        htmlLink ← findHtmlLink links;
        Ok (orVal (optMember htmlLink "@href")
              (orVal (optMember (default VUndef (head links)) "@href") (VStr "")))
    | _ => Ok (orVal (getProp l "@href") (VStr (extractTextContent l)))
    end
  else Ok (VStr "").

(** The body of the Atom loop. *)
Definition atomEntry (feedName : string) (entry : JsVal) : Result (option FeedItem) :=
  t ← member entry "title";
  let title := extractTextContent t in
  link ← atomLink entry;
  let description := orStr (extractTextContent (getProp entry "summary"))
                       (extractTextContent (getProp entry "content")) in
  let pubDate := orStr (extractTextContent (getProp entry "published"))
                   (extractTextContent (getProp entry "updated")) in
  if truthyStr title
  then Ok (Some (mkFeedItem title link description pubDate feedName))
  else Ok None.

(** The body of the RDF loop. *)
Definition rdfItem (feedName : string) (item : JsVal) : Result (option FeedItem) :=
  t ← member item "title";
  let title := extractTextContent t in
  let link := VStr (extractTextContent (getProp item "link")) in
  let description := extractTextContent (getProp item "description") in
  let pubDate := extractTextContent (getProp item "dc:date") in
  if truthyStr title
  then Ok (Some (mkFeedItem title link description pubDate feedName))
  else Ok None.

(** A [for ... of] loop pushing onto [items]; a throw leaves the loop. *)
Fixpoint pushEach (body : JsVal -> Result (option FeedItem))
    (l : list JsVal) (items : list FeedItem) : Result (list FeedItem) :=
  match l with
  | [] => Ok items
  | x :: rest =>
      r ← body x;
      pushEach body rest (match r with Some it => items ++ [it] | None => items end)
  end.

(** [`<${tagName}[^>]*><!\\[CDATA\\[...`] *)
Definition tagRegExp (tagName : string) : RegExp :=
  mkRegExp ("<" +:+ tagName +:+ "[^>]*><!\[CDATA\[([\s\S]*?)\]\]><\/" +:+ tagName
            +:+ ">|<" +:+ tagName +:+ "[^>]*>([\s\S]*?)<\/" +:+ tagName +:+ ">")
           "i".

Definition extractTagFallback (xml tagName : string) : string :=
  match reMatch (tagRegExp tagName) xml with
  | Some m => stripTags (trim (orEmpty (orOpt (group m 1) (orOpt (group m 2) (Some "")))))
  | None => ""
  end.

Definition rssItemRegex : RegExp := mkRegExp "<item>([\s\S]*?)<\/item>" "gi".
Definition atomEntryRegex : RegExp := mkRegExp "<entry>([\s\S]*?)<\/entry>" "gi".

Definition dquote : string := String (ascii_of_nat 34) EmptyString.

(** [/<link[^>]*href=[QUOTE'](...)[QUOTE']/] *)
Definition atomLinkRegex : RegExp :=
  mkRegExp ("<link[^>]*href=[" +:+ dquote +:+ "']([^" +:+ dquote +:+ "']*)["
            +:+ dquote +:+ "']") "".

(** One block of the fallback's first loop; group 1 takes part in every match
    of [rssItemRegex]. *)
Definition fallbackItem (feedName : string) (m : Captures) : option FeedItem :=
  let itemXml := orEmpty (group m 1) in
  let title := extractTagFallback itemXml "title" in
  let link := extractTagFallback itemXml "link" in
  let description := extractTagFallback itemXml "description" in
  let pubDate := orStr (extractTagFallback itemXml "pubDate")
                   (extractTagFallback itemXml "dc:date") in
  if truthyStr title
  then Some (mkFeedItem title (VStr link) description pubDate feedName)
  else None.

Definition fallbackEntry (feedName : string) (m : Captures) : option FeedItem :=
  let entryXml := orEmpty (group m 1) in
  let title := extractTagFallback entryXml "title" in
  let link := match reMatch atomLinkRegex entryXml with
              | Some linkMatch => orEmpty (group linkMatch 1)
              | None => ""
              end in
  let description := orStr (extractTagFallback entryXml "summary")
                       (extractTagFallback entryXml "content") in
  let pubDate := orStr (extractTagFallback entryXml "published")
                   (extractTagFallback entryXml "updated") in
  if truthyStr title
  then Some (mkFeedItem title (VStr link) description pubDate feedName)
  else None.

Definition parseRssFeedFallback (xmlText feedName : string) : list FeedItem :=
  let items := omap (fallbackItem feedName) (matchAll rssItemRegex xmlText) in
  if (length items =? 0)%nat
  then omap (fallbackEntry feedName) (matchAll atomEntryRegex xmlText)
  else items.

(** The [try] block of [parseRssFeed]. *)
Definition parseStructured (xmlText feedName : string) : Result (list FeedItem) :=
  parsed ← parseXML xmlText;
  let rss := optMember (optMember (optMember parsed "rss") "channel") "item" in
  items ← (if truthy rss then pushEach (rssItem feedName) (asArray rss) []
           else Ok []);
  let atom := optMember (optMember parsed "feed") "entry" in
  items ← (if truthy atom then pushEach (atomEntry feedName) (asArray atom) items
           else Ok items);
  let rdf := optMember (optMember parsed "rdf:RDF") "item" in
  if truthy rdf then pushEach (rdfItem feedName) (asArray rdf) items
  else Ok items.

Definition parseRssFeed (xmlText feedName : string) : list FeedItem :=
  match parseStructured xmlText feedName with
  | Ok items => items
  | Throw _ => parseRssFeedFallback xmlText feedName
  end.

(** [new Date(dateStr)] never throws, so the [catch] of the source is dead;
    an invalid date compares false with every cutoff. *)
Definition isWithinDateRange (now : Z) (dateStr : string) (dateRangeDays : Z)
  : bool :=
  if negb (truthyStr dateStr) then true
  else
    let cutoffDate := daysBefore now dateRangeDays in
    match Date_parse dateStr with
    | Some itemDate => cutoffDate <=? itemDate
    | None => false
    end.


(* ===================================================================== *)
(** * Per-source fetch and health record                                  *)
(* ===================================================================== *)

Inductive Status := healthy | degraded | failing.

(** A health record; a field the object does not carry is [None]. *)
Record SourceHealth := mkHealth {
  source_name : string;
  source_url : string;
  source_type : string;
  last_check : string;
  health_status : option Status;
  last_success : option string;
  items_fetched : option nat;
  error_message : option string;
  consecutive_failures : option Z;
  retries_used : option nat
}.

Record RssFeed := mkRssFeed {
  feed_name : string;
  feed_url : string;
  feed_region : string
}.

Record FeedFetch := mkFeedFetch {
  ff_items : list FeedItem;
  ff_health : SourceHealth;
  ff_error : option string
}.

(** [`${x}`] of a string that may be [undefined]. *)
Definition showOpt (o : option string) : string := default "undefined" o.

Definition fetchRssFeed (now : Z) (feed : RssFeed) (dateRangeDays : Z)
  : FeedFetch :=
  let last_check := toISOString now in
  let result := fst (fetchWithRetry (feed_url feed) 3) in
  match result with
  | FetchOk response attempt =>
      let xmlText := body response in
      let items := parseRssFeed xmlText (feed_name feed) in
      let recentItems :=
        take 20 (filter (λ item, isWithinDateRange now (f_pubDate item)
                                   dateRangeDays = true) items) in
      mkFeedFetch recentItems
        (mkHealth (feed_name feed) (feed_url feed) "rss" last_check
           (Some healthy) (Some last_check) (Some (length recentItems)) None
           (Some 0) (Some attempt))
        None
  | FetchFailed error attempt =>
      mkFeedFetch []
        (mkHealth (feed_name feed) (feed_url feed) "rss" last_check
           (Some failing) None None error None (Some attempt))
        (Some ("RSS " +:+ feed_name feed +:+ ": " +:+ showOpt error))
  end.

Record StoredHealth := mkStored { sh_id : nat; sh_rec : SourceHealth }.

(** [entities.SourceHealth.filter({ source_url })] *)
Definition SourceHealth_filter (url : string) (st : list StoredHealth)
  : list StoredHealth :=
  filter (λ r, source_url (sh_rec r) = url) st.

(** A patch overwrites the fields it carries. *)
Definition applyPatch (prev patch : SourceHealth) : SourceHealth :=
  let keep {A} (new old : option A) : option A :=
    match new with Some _ => new | None => old end in
  mkHealth (source_name patch) (source_url patch) (source_type patch)
    (last_check patch)
    (keep (health_status patch) (health_status prev))
    (keep (last_success patch) (last_success prev))
    (keep (items_fetched patch) (items_fetched prev))
    (keep (error_message patch) (error_message prev))
    (keep (consecutive_failures patch) (consecutive_failures prev))
    (keep (retries_used patch) (retries_used prev)).

(** [entities.SourceHealth.update(id, patch)] *)
Definition SourceHealth_update (id : nat) (patch : SourceHealth)
    (st : list StoredHealth) : list StoredHealth :=
  map (λ r, if (sh_id r =? id)%nat
            then mkStored (sh_id r) (applyPatch (sh_rec r) patch) else r) st.

(** [entities.SourceHealth.create(record)]: a fresh id. *)
Definition SourceHealth_create (h : SourceHealth) (st : list StoredHealth)
  : list StoredHealth :=
  st ++ [mkStored (S (foldr Nat.max 0%nat (map sh_id st))) h].

Definition withFailures (h : SourceHealth) (n : Z) : SourceHealth :=
  mkHealth (source_name h) (source_url h) (source_type h) (last_check h)
    (health_status h) (last_success h) (items_fetched h) (error_message h)
    (Some n) (retries_used h).

(** The callback of [healthUpdatePromises], for one health record. *)
Definition persistHealth (health : SourceHealth) (st : list StoredHealth)
  : list StoredHealth :=
  match SourceHealth_filter (source_url health) st with
  | prev :: _ =>
      let consecutiveFailures :=
        match health_status health with
        | Some failing => default 0 (consecutive_failures (sh_rec prev)) + 1
        | _ => 0
        end in
      SourceHealth_update (sh_id prev) (withFailures health consecutiveFailures) st
  | [] => SourceHealth_create health st
  end.

(** One scan, as far as one RSS source and its health record go: phase 1
    fetches, phase 3 persists the health record. *)
Definition scanRssSource (now : Z) (feed : RssFeed) (dateRangeDays : Z)
    (st : list StoredHealth) : list StoredHealth :=
  persistHealth (ff_health (fetchRssFeed now feed dateRangeDays)) st.

(* ===================================================================== *)
(** * Site scraper                                                        *)
(* ===================================================================== *)

Record ScrapeConfig := mkScrapeConfig {
  c_name : string;
  c_url : string;
  baseUrl : option string;
  useRegexOnly : bool;
  titlePattern : option RegExp;
  datePattern : option RegExp;
  articleSelector : option string;
  titleSelector : option string;
  dateSelector : option string;
  descriptionSelector : option string;
  authorSelector : option string
}.

(** The two mutable locals of [scrapeWebsite]. *)
Record ScrapeState := mkScrapeState {
  items : list Item;
  seen : gset string
}.

Record ScrapeResult := mkScrapeResult {
  sr_items : list Item;
  sr_error : option string;
  sr_retries : nat
}.

Definition isSome {A} (o : option A) : bool :=
  match o with Some _ => true | None => false end.

(** One turn of the regex-only loop. *)
Definition regexOnlyStep (config : ScrapeConfig) (now : Z) (st : ScrapeState)
    (m : Captures) : ScrapeState :=
  let link := orEmpty (orOpt (group m 1) (orOpt (group m 3) (Some ""))) in
  let title := orEmpty (orOpt (group m 2) (orOpt (group m 4) (Some ""))) in
  let title := trim (collapseWhiteSpace (stripTags title)) in
  if negb (truthyStr title) || (String.length title <? 15)%nat
     || bool_decide (toLowerCase title ∈ seen st)
  then st
  else
    let seen' := {[toLowerCase title]} ∪ seen st in
    let link :=
      if truthyStr link && negb (startsWith link "http") && truthyOpt (baseUrl config)
      then if startsWith link "/" then orEmpty (baseUrl config) +:+ link
           else orEmpty (baseUrl config) +:+ "/" +:+ link
      else link in
    if includes (toLowerCase title) "view all"
       || includes (toLowerCase title) "read more"
       || includes (toLowerCase title) "subscribe"
       || (300 <? String.length title)%nat
    then mkScrapeState (items st) seen'
    else mkScrapeState
           (items st ++ [mkItem (Some title) (Some link) (Some "")
                           (Some (toISOString now)) None (c_name config) None])
           seen'.

(** One turn of the loop of the [catch] block. *)
Definition fallbackStep (config : ScrapeConfig) (now : Z) (st : ScrapeState)
    (m : Captures) : ScrapeState :=
  let link := orEmpty (orOpt (group m 1) (orOpt (group m 3) (Some ""))) in
  let title := orEmpty (orOpt (group m 2) (orOpt (group m 4) (Some ""))) in
  let title := trim (stripTags title) in
  if negb (truthyStr title) || (String.length title <? 10)%nat
     || bool_decide (title ∈ seen st)
  then st
  else
    let seen' := {[title]} ∪ seen st in
    let link :=
      if truthyStr link && negb (startsWith link "http") && truthyOpt (baseUrl config)
      then orEmpty (baseUrl config) +:+ link
      else link in
    if includes (toLowerCase title) "view all"
       || includes (toLowerCase title) "read more"
       || includes (toLowerCase title) "subscribe"
       || (300 <? String.length title)%nat
    then mkScrapeState (items st) seen'
    else mkScrapeState
           (items st ++ [mkItem (Some title) (Some link) (Some "")
                           (Some (toISOString now)) None (c_name config) None])
           seen'.

(** The anchor and the raw title of one selected element. *)
Definition titleAndAnchor (config : ScrapeConfig) (el : Element)
  : Result (option Element * string) :=
  found ← (if truthyOpt (titleSelector config)
           then querySelector el (orEmpty (titleSelector config))
           else Ok None);
  match found with
  | Some titleEl =>
      let title := trim (textContent titleEl) in
      if String.eqb (tagName titleEl) "A" then Ok (Some titleEl, title)
      else
        up ← closest titleEl "a";
        match up with
        | Some a => Ok (Some a, title)
        | None => a ← querySelector el "a"; Ok (a, title)
        end
  | None =>
      if String.eqb (tagName el) "A" then Ok (Some el, trim (textContent el))
      else
        a ← querySelector el "a";
        Ok (a, match a with
               | Some anchor => trim (textContent anchor)
               | None => ""
               end)
  end.

Definition absoluteLink (config : ScrapeConfig) (link : string) : Result string :=
  if truthyStr link && negb (startsWith link "http") then
    if truthyOpt (baseUrl config) then
      Ok (if startsWith link "/" then orEmpty (baseUrl config) +:+ link
          else orEmpty (baseUrl config) +:+ "/" +:+ link)
    else
      baseUrl ← URL_origin (c_url config);
      Ok (if startsWith link "/" then baseUrl +:+ link
          else baseUrl +:+ "/" +:+ link)
  else Ok link.

(** [dateEl.getAttribute('datetime') || dateEl.textContent?.trim()], kept
    when truthy. *)
Definition dateOf (dateEl : option Element) (fallback : string) : string :=
  match dateEl with
  | Some d =>
      let dateStr := orOpt (getAttribute d "datetime") (Some (trim (textContent d))) in
      if truthyOpt dateStr then orEmpty dateStr else fallback
  | None => fallback
  end.

Definition genericDateSelector : string :=
  "time, .date, .timestamp, [class*=" +:+ dquote +:+ "date" +:+ dquote +:+ "]".

Definition genericAuthorSelector : string :=
  ".author, .byline, [rel=" +:+ dquote +:+ "author" +:+ dquote +:+ "], .meta-author".

Definition pubDateOf (config : ScrapeConfig) (now : Z) (el : Element)
  : Result string :=
  let pubDate := toISOString now in
  if truthyOpt (dateSelector config) then
    dateEl ← querySelector el (orEmpty (dateSelector config));
    Ok (dateOf dateEl pubDate)
  else if isSome (datePattern config) then Ok pubDate
  else
    dateEl ← querySelector el genericDateSelector;
    Ok (dateOf dateEl pubDate).

Definition textOfSel (el : Element) (sel : string) : Result string :=
  found ← querySelector el sel;
  Ok (match found with Some e => trim (textContent e) | None => "" end).

(** What follows [seen.add] in one turn of the DOM loop. *)
Definition domItem (config : ScrapeConfig) (now : Z) (el : Element)
    (title link : string) : Result Item :=
  link ← absoluteLink config link;
  pubDate ← pubDateOf config now el;
  description ← (if truthyOpt (descriptionSelector config)
                 then textOfSel el (orEmpty (descriptionSelector config))
                 else Ok "");
  author ← (if truthyOpt (authorSelector config)
            then textOfSel el (orEmpty (authorSelector config))
            else textOfSel el genericAuthorSelector);
  Ok (mkItem (Some title) (Some link) (Some description) (Some pubDate)
        (Some author) (c_name config) None).

(** How one turn of the DOM loop ends: normally, or by a throw that leaves
    the [try] block with the state reached so far. *)
Inductive Step :=
| Next (st : ScrapeState)
| Raised (st : ScrapeState).

Definition domStep (config : ScrapeConfig) (now : Z) (el : Element)
    (st : ScrapeState) : Step :=
  match titleAndAnchor config el with
  | Throw _ => Raised st
  | Ok (None, _) => Next st
  | Ok (Some anchor, title) =>
      let link := orEmpty (getAttribute anchor "href") in
      let title := trim (collapseWhiteSpace title) in
      if negb (truthyStr title) || (String.length title <? 10)%nat
         || bool_decide (toLowerCase title ∈ seen st)
      then Next st
      else if includes (toLowerCase title) "view all"
              || includes (toLowerCase title) "read more"
              || includes (toLowerCase title) "subscribe"
              || includes (toLowerCase title) "sign up"
              || (300 <? String.length title)%nat
      then Next st
      else
        let seen' := {[toLowerCase title]} ∪ seen st in
        match domItem config now el title link with
        | Throw _ => Raised (mkScrapeState (items st) seen')
        | Ok it => Next (mkScrapeState (items st ++ [it]) seen')
        end
  end.

Fixpoint domLoop (config : ScrapeConfig) (now : Z) (els : list Element)
    (st : ScrapeState) : Step :=
  match els with
  | [] => Next st
  | el :: rest =>
      match domStep config now el st with
      | Next st' => domLoop config now rest st'
      | Raised st' => Raised st'
      end
  end.

Definition defaultSelectors : string :=
  "article a, .card a, .insight a, .post a, h2 a, h3 a".

(** [config.articleSelector || "article a, ..."] *)
Definition articleSelectors (config : ScrapeConfig) : string :=
  if truthyOpt (articleSelector config) then orEmpty (articleSelector config)
  else defaultSelectors.

(** The [catch] block of [scrapeWebsite]. *)
Definition catchFallback (config : ScrapeConfig) (now : Z) (html : string)
    (st : ScrapeState) : ScrapeState :=
  match titlePattern config with
  | Some pat => foldl (fallbackStep config now) st (take 15 (matchAll pat html))
  | None => st
  end.

Definition scrapeWebsite (config : ScrapeConfig) (now : Z) : ScrapeResult :=
  match fst (fetchWithRetry (c_url config) 3) with
  | FetchFailed error attempt => mkScrapeResult [] error attempt
  | FetchOk response attempt =>
      let html := body response in
      let start := mkScrapeState [] ∅ in
      match useRegexOnly config, titlePattern config with
      | true, Some pat =>
          let st := foldl (regexOnlyStep config now) start
                      (take 20 (matchAll pat html)) in
          mkScrapeResult (items st) None attempt
      | _, _ =>
          match parseFromString html with
          | Throw _ =>
              mkScrapeResult (items (catchFallback config now html start)) None attempt
          | Ok None => mkScrapeResult [] (Some "Failed to parse HTML") attempt
          | Ok (Some doc) =>
              let selectors := articleSelectors config in
              match querySelectorAll doc selectors with
              | Throw _ =>
                  mkScrapeResult (items (catchFallback config now html start))
                    None attempt
              | Ok elements =>
                  match domLoop config now (take 20 elements) start with
                  | Next st => mkScrapeResult (items st) None attempt
                  | Raised st =>
                      mkScrapeResult (items (catchFallback config now html st))
                        None attempt
                  end
              end
          end
      end
  end.

Record SiteFetch := mkSiteFetch {
  sf_items : list Item;
  sf_health : SourceHealth;
  sf_error : option string
}.

Definition fetchScrapeSite (config : ScrapeConfig) (now : Z) : SiteFetch :=
  let last_check := toISOString now in
  let result := scrapeWebsite config now in
  if truthyOpt (sr_error result) then
    mkSiteFetch []
      (mkHealth (c_name config) (c_url config) "scrape" last_check
         (Some failing) None None (sr_error result) None (Some (sr_retries result)))
      (Some ("Scrape " +:+ c_name config +:+ ": " +:+ showOpt (sr_error result)))
  else if (0 <? length (sr_items result))%nat then
    mkSiteFetch (sr_items result)
      (mkHealth (c_name config) (c_url config) "scrape" last_check
         (Some healthy) (Some last_check) (Some (length (sr_items result))) None
         (Some 0) (Some (sr_retries result)))
      None
  else
    mkSiteFetch []
      (mkHealth (c_name config) (c_url config) "scrape" last_check
         (Some degraded) None None (Some "No items found") None
         (Some (sr_retries result)))
      None.

(* ===================================================================== *)
(** * Content enricher                                                    *)
(* ===================================================================== *)

(** [sel[attr="value"]] *)
Definition attrSel (tag attr value : string) : string :=
  tag +:+ "[" +:+ attr +:+ "=" +:+ dquote +:+ value +:+ dquote +:+ "]".

(** [doc.querySelector(sel)?.getAttribute(name)] *)
Definition attrAt (doc : Element) (sel name : string) : Result (option string) :=
  found ← querySelector doc sel;
  Ok (match found with Some e => getAttribute e name | None => None end).

(** [doc.querySelector(sel)?.textContent?.trim()] *)
Definition textAt (doc : Element) (sel : string) : Result (option string) :=
  found ← querySelector doc sel;
  Ok (match found with Some e => Some (trim (textContent e)) | None => None end).

(** [a || b || ...], left to right: an operand is evaluated (and may throw)
    only when the ones before it are falsy.  The result is only tested for
    truthiness, so a falsy outcome is [None]. *)
Fixpoint firstTruthy (operands : list (Result (option string)))
  : Result (option string) :=
  match operands with
  | [] => Ok None
  | r :: rest => v ← r; if truthyOpt v then Ok v else firstTruthy rest
  end.

Definition setPubDate (item : Item) (d : option string) : Item :=
  mkItem (title item) (link item) (description item) d (author item)
    (source item) (fullContent item).

Definition setAuthor (item : Item) (a : option string) : Item :=
  mkItem (title item) (link item) (description item) (pubDate item) a
    (source item) (fullContent item).

Definition setContent (item : Item) (desc full : option string) : Item :=
  mkItem (title item) (link item) desc (pubDate item) (author item)
    (source item) full.

(** 1. Extract date *)
Definition enrichDate (doc : Element) (item : Item) : Result Item :=
  metaDate ← firstTruthy
    [ attrAt doc (attrSel "meta" "property" "article:published_time") "content";
      attrAt doc (attrSel "meta" "name" "date") "content";
      attrAt doc (attrSel "meta" "name" "pubdate") "content";
      attrAt doc (attrSel "meta" "name" "publish_date") "content";
      attrAt doc "time[datetime]" "datetime" ];
  Ok (if truthyOpt metaDate then setPubDate item metaDate else item).

(** 2. Extract author *)
Definition enrichAuthor (doc : Element) (item : Item) : Result Item :=
  if truthyOpt (author item) then Ok item
  else
    author ← firstTruthy
      [ attrAt doc (attrSel "meta" "name" "author") "content";
        attrAt doc (attrSel "meta" "property" "article:author") "content";
        textAt doc ".author";
        textAt doc ".byline";
        textAt doc ("[rel=" +:+ dquote +:+ "author" +:+ dquote +:+ "]") ];
    Ok (if truthyOpt author then setAuthor item author else item).

Definition contentSelectors : list string :=
  [ "article"; "[role=" +:+ dquote +:+ "main" +:+ dquote +:+ "]"; ".post-content";
    ".article-content"; ".entry-content"; ".main-content"; "#content"; "main" ].

(** The loop over [contentSelectors], with its [break]. *)
Fixpoint firstSubstantial (doc : Element) (selectors : list string)
  : Result string :=
  match selectors with
  | [] => Ok ""
  | selector :: rest =>
      el ← querySelector doc selector;
      match el with
      | Some e =>
          if (300 <? String.length (trim (textContent e)))%nat
          then Ok (trim (textContent e))
          else firstSubstantial doc rest
      | None => firstSubstantial doc rest
      end
  end.

Definition newline : string := String (ascii_of_nat 10) EmptyString.

(** 3. Extract full content *)
Definition enrichContent (doc : Element) (item : Item) : Result Item :=
  content ← firstSubstantial doc contentSelectors;
  content ← (if truthyStr content then Ok content
             else
               paragraphs ← querySelectorAll doc "p";
               let substantialParagraphs :=
                 filter (λ t, (60 <? String.length t)%nat = true)
                   (map (λ p, trim (textContent p)) paragraphs) in
               Ok (if (3 <=? length substantialParagraphs)%nat
                   then joinWith (newline +:+ newline) substantialParagraphs
                   else ""));
  if truthyStr content then
    let fullContent := String.substring 0 8000 (collapseWhiteSpace content) in
    Ok (setContent item
          (if negb (truthyOpt (description item))
              || (String.length (orEmpty (description item)) <? 150)%nat
           then Some (String.substring 0 300 fullContent +:+ "...")
           else description item)
          (Some fullContent))
  else Ok item.

(** The part of the [try] block after the document is there: each phase
    assigns to the item at its end, so a throw keeps the phases before it. *)
Definition enrichFrom (doc : Element) (item : Item) : Item :=
  match enrichDate doc item with
  | Throw _ => item
  | Ok item1 =>
      match enrichAuthor doc item1 with
      | Throw _ => item1
      | Ok item2 =>
          match enrichContent doc item2 with
          | Throw _ => item2
          | Ok item3 => item3
          end
      end
  end.

(** The item returned, and the network traffic of the call. *)
Definition enrichArticleContent (item : Item) : Item * list NetEvent :=
  if negb (truthyOpt (link item)) || negb (startsWith (orEmpty (link item)) "http")
  then (item, [])
  else
    let '(result, log) := fetchWithRetry (orEmpty (link item)) 3 in
    match result with
    | FetchFailed _ _ => (item, log)
    | FetchOk response _ =>
        let html := body response in
        match parseFromString html with
        | Throw _ => (item, log)
        | Ok None => (item, log)
        | Ok (Some doc) => (enrichFrom doc item, log)
        end
    end.

End Program.

(* ===================================================================== *)
(** * Scan orchestrator                                                   *)
(* ===================================================================== *)

Definition RSS_FEEDS : list RssFeed :=
  [ mkRssFeed "FTC Press Releases"
      "https://www.ftc.gov/feeds/press-release.xml" "US";
    mkRssFeed "FTC Consumer Protection"
      "https://www.ftc.gov/feeds/press-release-consumer-protection.xml" "US";
    mkRssFeed "FTC Competition"
      "https://www.ftc.gov/feeds/press-release-competition.xml" "US";
    mkRssFeed "OCC News Releases"
      "https://www.occ.gov/rss/occ_news.xml" "US";
    mkRssFeed "OCC Bulletins"
      "https://www.occ.gov/rss/occ_bulletins.xml" "US";
    mkRssFeed "EU Competition News"
      "https://ec.europa.eu/competition/rss/news_en.xml" "EU";
    mkRssFeed "SCOTUSblog"
      "https://www.scotusblog.com/feed/" "US";
    mkRssFeed "IPKat"
      "https://ipkitten.blogspot.com/feeds/posts/default" "Global";
    mkRssFeed "Law and the Workplace"
      "https://www.lawandtheworkplace.com/feed/" "US";
    mkRssFeed "Consumer Financial Services Law Monitor"
      "https://www.consumerfinancialserviceslawmonitor.com/feed/" "US";
    mkRssFeed "Fintech Business Weekly"
      "https://fintechbusinessweekly.substack.com/feed" "US";
    mkRssFeed "Law360"
      "https://www.law360.com/search/articles?format=rss&q=&facet=" "US";
    mkRssFeed "Law360 Pulse Legal Tech"
      "https://www.law360.com/pulse/legal-tech/rss" "US" ].

Definition SCRAPE_CONFIGS : list ScrapeConfig :=
  [ mkScrapeConfig "Skadden Insights" "https://www.skadden.com/insights"
      None false
      (Some (mkRegExp ("<a[^>]*href=" +:+ dquote +:+ "([^" +:+ dquote +:+ "]*\/insights\/[^" +:+ dquote +:+ "]*)" +:+ dquote +:+ "[^>]*>([^<]+)<\/a>") "gi"))
      (Some (mkRegExp ("<time[^>]*>([^<]+)<\/time>|<span[^>]*class=" +:+ dquote +:+ "[^" +:+ dquote +:+ "]*date[^" +:+ dquote +:+ "]*" +:+ dquote +:+ "[^>]*>([^<]+)<\/span>") "gi"))
      (Some "article, .insight-item, .card, [class*='insight'], [class*='article']") None None None None;
    mkScrapeConfig "CFPB Newsroom" "https://www.consumerfinance.gov/about-us/newsroom/"
      (Some "https://www.consumerfinance.gov") false
      (Some (mkRegExp ("<a[^>]*href=" +:+ dquote +:+ "(\/about-us\/newsroom\/[^" +:+ dquote +:+ "]*)" +:+ dquote +:+ "[^>]*class=" +:+ dquote +:+ "[^" +:+ dquote +:+ "]*" +:+ dquote +:+ "[^>]*>([^<]+)<\/a>|<h[1-3][^>]*class=" +:+ dquote +:+ "[^" +:+ dquote +:+ "]*title[^" +:+ dquote +:+ "]*" +:+ dquote +:+ "[^>]*><a[^>]*href=" +:+ dquote +:+ "([^" +:+ dquote +:+ "]*)" +:+ dquote +:+ "[^>]*>([^<]+)<\/a>") "gi"))
      None
      None None None None None;
    mkScrapeConfig "FDIC Press Releases" "https://www.fdic.gov/news/press-releases"
      (Some "https://www.fdic.gov") false
      (Some (mkRegExp ("<a[^>]*href=" +:+ dquote +:+ "(\/news\/press-releases\/[^" +:+ dquote +:+ "]*)" +:+ dquote +:+ "[^>]*>([^<]+)<\/a>") "gi"))
      None
      None None None None None;
    mkScrapeConfig "EBG Law Insights" "https://www.ebglaw.com/insights/"
      None false
      (Some (mkRegExp ("<a[^>]*href=" +:+ dquote +:+ "(https:\/\/www\.ebglaw\.com\/insights\/[^" +:+ dquote +:+ "]*)" +:+ dquote +:+ "[^>]*>([^<]+)<\/a>") "gi"))
      None
      None None None None None;
    mkScrapeConfig "Jackson Lewis" "https://www.jacksonlewis.com/insights"
      (Some "https://www.jacksonlewis.com") false
      (Some (mkRegExp ("<a[^>]*href=" +:+ dquote +:+ "(https:\/\/www\.jacksonlewis\.com\/insights\/[^" +:+ dquote +:+ "]*)" +:+ dquote +:+ "[^>]*>([^<]+)<\/a>|<a[^>]*href=" +:+ dquote +:+ "(\/insights\/[^" +:+ dquote +:+ "]*)" +:+ dquote +:+ "[^>]*>([^<]+)<\/a>") "gi"))
      None
      None None None None None ].

Definition staticSourceIdMap : list (string * string) :=
  [ ("ftc", "FTC Press Releases");
    ("ftc_consumer", "FTC Consumer Protection");
    ("ftc_competition", "FTC Competition");
    ("occ_news", "OCC News Releases");
    ("occ_bulletins", "OCC Bulletins");
    ("eu_competition", "EU Competition News");
    ("scotusblog", "SCOTUSblog");
    ("ipkat", "IPKat");
    ("lawworkplace", "Law and the Workplace");
    ("cfs_monitor", "Consumer Financial Services Law Monitor");
    ("fintech_weekly", "Fintech Business Weekly");
    ("law360", "Law360");
    ("law360_pulse", "Law360 Pulse Legal Tech");
    ("skadden", "Skadden Insights");
    ("ebglaw", "EBG Law Insights");
    ("jacksonlewis", "Jackson Lewis");
    ("cfpb", "CFPB Newsroom");
    ("fdic", "FDIC Press Releases") ].

(** An active [ComplianceSource] record of the store, as phase 0 reads it. *)
Record ComplianceSource := mkComplianceSource {
  cs_id : string;
  cs_name : string;
  cs_url : string;
  cs_type : string;
  cs_region : option string;
  cs_scrape_selector : option string;
  cs_title_selector : option string;
  cs_date_selector : option string;
  cs_description_selector : option string
}.

(** [source.region || 'Global'] *)
Definition regionOf (source : ComplianceSource) : string :=
  if truthyOpt (cs_region source) then orEmpty (cs_region source) else "Global".

(** The [forEach] of phase 0, for the sources of type [rss]. *)
Definition dynamicRss (customSources : list ComplianceSource) : list RssFeed :=
  omap (λ source,
          if String.eqb (cs_type source) "rss"
          then Some (mkRssFeed (cs_name source) (cs_url source) (regionOf source))
          else None)
       customSources.

(** The same for the sources of type [scrape] (the [region] of a scrape
    configuration is never read and has no field in [ScrapeConfig]). *)
Definition dynamicScrape (customSources : list ComplianceSource)
  : list ScrapeConfig :=
  omap (λ source,
          if String.eqb (cs_type source) "rss" then None
          else if String.eqb (cs_type source) "scrape"
          then Some (mkScrapeConfig (cs_name source) (cs_url source) None false
                       None None (cs_scrape_selector source)
                       (cs_title_selector source) (cs_date_selector source)
                       (cs_description_selector source) None)
          else None)
       customSources.

(** A failed query for the custom sources leaves both lists empty. *)
Definition customOrNone (query : Result (list ComplianceSource))
  : list ComplianceSource :=
  match query with Ok l => l | Throw _ => [] end.

Definition allRssFeeds (query : Result (list ComplianceSource)) : list RssFeed :=
  RSS_FEEDS ++ dynamicRss (customOrNone query).

Definition allScrapeConfigs (query : Result (list ComplianceSource))
  : list ScrapeConfig :=
  SCRAPE_CONFIGS ++ dynamicScrape (customOrNone query).

(** [staticSourceIdMap[id]], for an id that is an own key of the map (a key
    inherited from [Object.prototype] yields a function, which is added to
    the set of names and equals no source name). *)
Fixpoint lookupStatic (id : string) (m : list (string * string)) : option string :=
  match m with
  | [] => None
  | (k, v) :: rest => if String.eqb id k then Some v else lookupStatic id rest
  end.

Definition selectedStaticNames (selectedSourceIds : list string) : gset string :=
  list_to_set
    (omap (λ id, match lookupStatic id staticSourceIdMap with
                 | Some name => if truthyStr name then Some name else None
                 | None => None
                 end)
          selectedSourceIds).

(** [feed.id]: neither the static tables nor the objects pushed in phase 0
    carry an [id], so the property is [undefined] on every source. *)
Definition feed_id (feed : RssFeed) : option string := None.
Definition config_id (config : ScrapeConfig) : option string := None.

(** [new Set(selectedSourceIds)], whose members are strings. *)
Definition selectedSet (selectedSourceIds : list string) : gset (option string) :=
  list_to_set (Some <$> selectedSourceIds).

(** The selection step; [None] is [selectedSourceIds = null]. *)
Definition selectRssFeeds (selectedSourceIds : option (list string))
    (feeds : list RssFeed) : list RssFeed :=
  match selectedSourceIds with
  | Some ids =>
      if (0 <? length ids)%nat then
        filter (λ feed, feed_name feed ∈ selectedStaticNames ids
                        ∨ feed_id feed ∈ selectedSet ids) feeds
      else feeds
  | None => feeds
  end.

Definition selectScrapeConfigs (selectedSourceIds : option (list string))
    (configs : list ScrapeConfig) : list ScrapeConfig :=
  match selectedSourceIds with
  | Some ids =>
      if (0 <? length ids)%nat then
        filter (λ config, c_name config ∈ selectedStaticNames ids
                          ∨ config_id config ∈ selectedSet ids) configs
      else configs
  | None => configs
  end.

(** The request body, as far as it is read. *)
Record ScanRequest := mkScanRequest {
  body_dateRangeDays : option Z;
  body_selectedSourceIds : option (list string)
}.

(** The two parameters of a scan; [Throw] is a missing or invalid body. *)
Definition requestDays (body : Result ScanRequest) : Z :=
  match body with
  | Ok b =>
      match body_dateRangeDays b with
      | Some d => if negb (d =? 0) && (1 <=? d) && (d <=? 60) then d else 14
      | None => 14
      end
  | Throw _ => 14
  end.

Definition requestSelection (body : Result ScanRequest) : option (list string) :=
  match body with
  | Ok b =>
      match body_selectedSourceIds b with
      | Some ids => if (0 <? length ids)%nat then Some ids else None
      | None => None
      end
  | Throw _ => None
  end.

(** [arr.slice(from, to)] for [from <= to]. *)
Definition slice {A} (from to : nat) (arr : list A) : list A :=
  take (to - from) (drop from arr).

(** [Math.ceil(n / size)] for a positive [size]. *)
Definition ceilDiv (n size : nat) : nat :=
  (n / size + (if n mod size =? 0 then 0 else 1))%nat.

(** [chunkArray] of phase 4, for a positive [size] (its only call passes
    [BATCH_SIZE = 20]). *)
Definition chunkArray {A} (arr : list A) (size : nat) : list (list A) :=
  (λ i, slice (i * size) (i * size + size) arr)
    <$> seq 0 (ceilDiv (length arr) size).

Definition BATCH_SIZE : nat := 20.

(** A relevance rule, as far as the pre-filter reads it. *)
Record RelevanceRule := mkRule {
  rule_id : string;
  rule_type : string;
  rule_pattern : option string;
  times_applied : option Z
}.

(** The [switch] on the rule type, after the two [continue]s. *)
Definition ruleMatches (titleLower descLower sourceLower : string)
    (rule : RelevanceRule) : bool :=
  let pattern := toLowerCase <$> rule_pattern rule in
  if negb (truthyOpt pattern) then false
  else if negb (startsWith (rule_type rule) "exclude") then false
  else
    let pattern := orEmpty pattern in
    if String.eqb (rule_type rule) "exclude_keyword"
    then includes titleLower pattern || includes descLower pattern
    else if String.eqb (rule_type rule) "exclude_topic"
    then includes titleLower pattern || includes descLower pattern
    else if String.eqb (rule_type rule) "exclude_title_pattern"
    then includes titleLower pattern
    else if String.eqb (rule_type rule) "exclude_source_pattern"
    then includes sourceLower pattern
    else false.

(** The [for] loop over the rules: the first rule that matches. *)
Definition firstMatch (relevanceRules : list RelevanceRule) (item : Item)
  : option RelevanceRule :=
  let titleLower := orEmpty (toLowerCase <$> title item) in
  let descLower := orEmpty (toLowerCase <$> description item) in
  let sourceLower := toLowerCase (source item) in
  find (λ rule, ruleMatches titleLower descLower sourceLower rule) relevanceRules.

(** A call [RelevanceRule.update(id, { times_applied })] that is sent and
    not awaited. *)
Record RuleUpdate := mkRuleUpdate {
  ru_id : string;
  ru_times_applied : Z
}.

(** The pre-filter of phase 4.5: the items kept, and the updates sent, in
    order. *)
Fixpoint applyRules (relevanceRules : list RelevanceRule) (allItems : list Item)
  : list Item * list RuleUpdate :=
  match allItems with
  | [] => ([], [])
  | item :: rest =>
      let '(kept, sent) := applyRules relevanceRules rest in
      match firstMatch relevanceRules item with
      | Some rule =>
          (kept, mkRuleUpdate (rule_id rule) (default 0 (times_applied rule) + 1)
                   :: sent)
      | None => (item :: kept, sent)
      end
  end.

Definition filterByRules (relevanceRules : list RelevanceRule)
    (allItems : list Item) : list Item * list RuleUpdate :=
  if (0 <? length relevanceRules)%nat then applyRules relevanceRules allItems
  else (allItems, []).

(** One element of [analysisResult.updates]. *)
Record LlmUpdate := mkLlmUpdate {
  lu_title : option string;
  lu_source : option string;
  lu_source_url : option string;
  lu_domain : option string;
  lu_jurisdiction : option string;
  lu_risk_score : option string;
  lu_update_type : option string;
  lu_summary : option string;
  lu_publish_date : option string;
  lu_compliance_actions : option (list string);
  lu_key_dates : option (list string);
  lu_affected_areas : option (list string)
}.

(** The result of the secondary analysis. *)
Record Analysis := mkAnalysis {
  an_is_court_decision_or_enforcement : option bool;
  an_involved_parties : option (list string);
  an_enforcement_type : option string;
  an_legal_field : option string;
  an_possible_implications : option string;
  an_trend_analysis : option string
}.

(** [{}] *)
Definition noAnalysis : Analysis := mkAnalysis None None None None None None.

(** The object handed to [RegulatoryUpdate.create]. *)
Record NewUpdate := mkNewUpdate {
  nu_title : option string;
  nu_source : option string;
  nu_source_url : string;
  nu_domain : option string;
  nu_jurisdiction : option string;
  nu_risk_score : option string;
  nu_update_type : string;
  nu_summary : option string;
  nu_compliance_actions : list string;
  nu_key_dates : list string;
  nu_affected_areas : list string;
  nu_full_analysis : string;
  nu_publish_date : string;
  nu_scan_date : string;
  nu_status : string;
  nu_is_court_decision_or_enforcement : bool;
  nu_involved_parties : list string;
  nu_enforcement_type : string;
  nu_legal_field : string;
  nu_possible_implications : string;
  nu_trend_analysis : string
}.

(** [o || d] for a string that may be absent. *)
Definition orDefault (o : option string) (d : string) : string :=
  if truthyOpt o then orEmpty o else d.

(** The callback of [analysisPromises]: the secondary analysis is asked for
    rulings and enforcements only; [invoke] answers [None] when the call
    throws or returns nothing. *)
Definition secondaryAnalysis (invoke : LlmUpdate -> option Analysis)
    (update : LlmUpdate) : option Analysis :=
  match lu_update_type update with
  | Some "Ruling" | Some "Enforcement" => invoke update
  | _ => None
  end.

(** The predicate of [allItems.find] in the save loop. *)
Definition isOriginalOf (update : LlmUpdate) (item : Item) : bool :=
  (truthyOpt (link item) && truthyOpt (lu_source_url update)
   && bool_decide (normKey (link item) = normKey (lu_source_url update)))
  || (truthyOpt (title item) && truthyOpt (lu_title update)
      && bool_decide (normKey (title item) = normKey (lu_title update))).

Definition newUpdateOf (allItems : list Item) (today : string)
    (update : LlmUpdate) (additionalAnalysis : Analysis) : NewUpdate :=
  let originalItem := find (λ item, isOriginalOf update item) allItems in
  let correctSourceName :=
    match originalItem with
    | Some item => Some (source item)
    | None => lu_source update
    end in
  mkNewUpdate (lu_title update) correctSourceName (orEmpty (lu_source_url update))
    (lu_domain update) (lu_jurisdiction update) (lu_risk_score update)
    (orDefault (lu_update_type update) "Regulatory")
    (lu_summary update)
    (default [] (lu_compliance_actions update))
    (default [] (lu_key_dates update))
    (default [] (lu_affected_areas update))
    ("Update Type: " +:+ orDefault (lu_update_type update) "N/A"
       +:+ newline +:+ newline +:+ showOpt (lu_summary update))
    (orDefault (lu_publish_date update) today)
    today "New"
    (default false (an_is_court_decision_or_enforcement additionalAnalysis))
    (default [] (an_involved_parties additionalAnalysis))
    (orEmpty (an_enforcement_type additionalAnalysis))
    (orEmpty (an_legal_field additionalAnalysis))
    (orEmpty (an_possible_implications additionalAnalysis))
    (orEmpty (an_trend_analysis additionalAnalysis)).

(** The mutable locals of the save loop. *)
Record SaveState := mkSaveState {
  savedTitlesThisBatch : gset (option string);
  savedUrlsThisBatch : gset (option string);
  savedUpdates : list NewUpdate;
  saveErrors : list string
}.

(** One turn of the save loop.  [createFails] is the store's answer to
    [create]: [Some message] when it rejects. *)
Definition saveStep (allItems : list Item) (today : string)
    (existingTitlesForSave existingUrlsForSave : gset (option string))
    (createFails : NewUpdate -> option string)
    (st : SaveState) (turn : LlmUpdate * option Analysis) : SaveState :=
  let update := turn.1 in
  let additionalAnalysis := default noAnalysis turn.2 in
  let normalizedTitle := normKey (lu_title update) in
  let normalizedUrl := normKey (lu_source_url update) in
  if bool_decide (normalizedTitle ∈ existingTitlesForSave)
     || bool_decide (normalizedTitle ∈ savedTitlesThisBatch st)
  then mkSaveState (savedTitlesThisBatch st) (savedUrlsThisBatch st)
         (savedUpdates st)
         (saveErrors st ++ ["Skipped duplicate: " +:+ showOpt (lu_title update)])
  else if truthyOpt normalizedUrl
          && (bool_decide (normalizedUrl ∈ existingUrlsForSave)
              || bool_decide (normalizedUrl ∈ savedUrlsThisBatch st))
  then mkSaveState (savedTitlesThisBatch st) (savedUrlsThisBatch st)
         (savedUpdates st)
         (saveErrors st
            ++ ["Skipped duplicate URL: " +:+ showOpt (lu_source_url update)])
  else
    let record := newUpdateOf allItems today update additionalAnalysis in
    match createFails record with
    | Some message =>
        mkSaveState (savedTitlesThisBatch st) (savedUrlsThisBatch st)
          (savedUpdates st)
          (saveErrors st ++ ["Failed to save: " +:+ showOpt (lu_title update)
                               +:+ " - " +:+ message])
    | None =>
        mkSaveState ({[normalizedTitle]} ∪ savedTitlesThisBatch st)
          (if truthyOpt normalizedUrl
           then {[normalizedUrl]} ∪ savedUrlsThisBatch st
           else savedUrlsThisBatch st)
          (savedUpdates st ++ [record])
          (saveErrors st)
    end.

(** The final dedup and save: the fresh query of the store (every record;
    a failed query leaves both sets empty), then the loop. *)
Definition saveUpdates (allItems : list Item) (today : string)
    (store : UpdateStore) (invoke : LlmUpdate -> option Analysis)
    (createFails : NewUpdate -> option string) (updates : list LlmUpdate)
  : SaveState :=
  let analysisResults := secondaryAnalysis invoke <$> updates in
  let '(existingTitlesForSave, existingUrlsForSave) :=
    match RegulatoryUpdate_filter_all store with
    | Ok freshExisting =>
        (keySet (λ u, normKey (u_title u)) freshExisting,
         keySet (λ u, normKey (u_source_url u)) freshExisting)
    | Throw _ => (∅, ∅)
    end in
  foldl (saveStep allItems today existingTitlesForSave existingUrlsForSave
           createFails)
        (mkSaveState ∅ ∅ [] [])
        (zip updates analysisResults).

(** A created record as the deduplicator later reads it from the store. *)
Definition asStored (created : Z) (record : NewUpdate) : RegulatoryUpdate :=
  mkUpdate (nu_title record) (Some (nu_source_url record)) created.

Section Orchestrator.
Context `{Platform}.
Variable net : Network.

(** Phase 2.5: the first 15 items are enriched in place, so [allItems]
    sees them enriched; the others are not touched. *)
Definition enrichPhase (allItems : list Item) : list Item :=
  ((λ item, fst (enrichArticleContent net item)) <$> take 15 allItems)
  ++ drop 15 allItems.

End Orchestrator.

(* ===================================================================== *)
(** * Sample data                                                         *)
(* ===================================================================== *)

Definition article (t l : string) : Item :=
  mkItem (Some t) (Some l) (Some "") None None "FTC Press Releases" None.

Definition itemA : Item := article "FTC Announces New Rule" "https://example.org/a".
Definition itemB : Item := article "Merger Review Update" "https://example.org/a".
Definition itemC : Item := article " merger review UPDATE" "https://example.org/c".
Definition dupBatch : list Item := [itemA; itemB; itemC].

Definition emptyStore : UpdateStore := mkStore true [].

(** A record written a hundred days before [day100]. *)
Definition day100 : Z := 100 * msPerDay.
Definition oldRecord : RegulatoryUpdate :=
  mkUpdate (Some "Old Enforcement Action") (Some "https://example.org/old") 0.
Definition oldStore : UpdateStore := mkStore true [oldRecord].
Definition reprint : Item :=
  article "old enforcement action" "https://example.org/reprint".

(** A platform on which one date string parses and nothing else is
    recognised. *)
Definition day100Iso : string := "1970-04-11T00:00:00.000Z".

Definition barePlatform : Platform := {|
  Date_parse := λ s, if String.eqb s day100Iso then Some day100 else None;
  URL_origin := λ _, Throw "TypeError: Invalid URL";
  parseXML := λ _, Throw "SyntaxError";
  parseFromString := λ _, Ok None;
  matchAll := λ _ _, [];
  reMatch := λ _ _, None;
  toISOString := λ _, day100Iso
|}.

Definition undatedItem : FeedItem :=
  mkFeedItem "Agency Adopts Final Rule" (VStr "https://example.org/1") "" "" "SCOTUSblog".
Definition misdatedItem : FeedItem :=
  mkFeedItem "Court Grants Review" (VStr "https://example.org/2") "" "last Tuesday"
    "SCOTUSblog".

(** Servers: one that always answers with a given status. *)
Definition serverAlways (st : Z) (text : string) : Network :=
  mkNetwork (λ _ _, Responded (mkResponse st None text)) (λ _, day100).

Definition ftcFeed : RssFeed :=
  mkRssFeed "FTC Press Releases" "https://www.ftc.gov/feeds/press-release.xml" "US".

Definition relativeItem : Item := article "Agency Adopts Final Rule" "/news/final-rule".

(** A page with one article link, whose title has 13 characters. *)
Definition shortTitle : string := "FTC Sues Firm".

Definition anchorEl (text href : string) : Element :=
  mkElement "A" text
    (λ name, if String.eqb name "href" then Some href else None)
    (λ _, Ok None) (λ _, Ok []) (λ _, Ok None).

Definition pageDoc : Element :=
  mkElement "HTML" shortTitle (λ _, None) (λ _, Ok None)
    (λ _, Ok [anchorEl shortTitle "/news/ftc-sues-firm"]) (λ _, Ok None).

Definition pagePattern : RegExp := mkRegExp "<a href=([^>]*)>([^<]+)<\/a>" "gi".

Definition pagePlatform : Platform := {|
  Date_parse := λ s, if String.eqb s day100Iso then Some day100 else None;
  URL_origin := λ _, Ok "https://www.example.org";
  parseXML := λ _, Throw "SyntaxError";
  parseFromString := λ _, Ok (Some pageDoc);
  matchAll := λ _ _, [[Some "<a href=/news/ftc-sues-firm>FTC Sues Firm</a>";
                       Some "/news/ftc-sues-firm"; Some shortTitle]];
  reMatch := λ _ _, None;
  toISOString := λ _, day100Iso
|}.

Definition domConfig : ScrapeConfig :=
  mkScrapeConfig "Example Insights" "https://www.example.org/insights"
    None false (Some pagePattern) None None None None None None.

Definition regexConfig : ScrapeConfig :=
  mkScrapeConfig "Example Insights" "https://www.example.org/insights"
    None true (Some pagePattern) None None None None None None.


(** A page whose one link has a headline of 24 characters. *)
Definition headlinePlatform : Platform := {|
  Date_parse := λ s, if String.eqb s day100Iso then Some day100 else None;
  URL_origin := λ _, Ok "https://www.example.org";
  parseXML := λ _, Throw "SyntaxError";
  parseFromString := λ _, Ok (Some pageDoc);
  matchAll := λ _ _, [[Some "<a href=/news/final-rule>Agency Adopts Final Rule</a>";
                       Some "/news/final-rule"; Some "Agency Adopts Final Rule"]];
  reMatch := λ _ _, None;
  toISOString := λ _, day100Iso
|}.


(** Rules and an item for the pre-filter. *)
Definition groceryRule : RelevanceRule :=
  mkRule "r1" "exclude_keyword" (Some "Grocery") (Some 4).
Definition privacyHint : RelevanceRule :=
  mkRule "r2" "include_keyword" (Some "privacy") None.
Definition groceryItem : Item :=
  article "Grocery Merger Blocked" "https://example.org/grocery".

(** A title as feeds carry it: markup around padded text. *)
Definition wrappedTitle : string := "<p> Title </p>".

(* ===================================================================== *)
(** * Predicates used in the statements                                   *)
(* ===================================================================== *)

(** A key that is present and not the empty string. *)
Definition nonEmptyKey (k : option string) : Prop := truthyOpt k = true.

(** [y] blocks [x]: same normalized title, or same normalized non-empty
    URL. *)
Definition sameKey (y x : Item) : Prop :=
  titleKey y = titleKey x ∨ (nonEmptyKey (urlKey x) ∧ urlKey y = urlKey x).

(** Some ['<'] of the string has a ['>'] behind it: the pattern of
    [stripTags] still matches. *)
Fixpoint hasTag (s : string) : bool :=
  match s with
  | EmptyString => false
  | String c s' => (Ascii.eqb c "<" && containsChar ">" s') || hasTag s'
  end.

(** What the DOM loop lets through. *)
Definition domTitleOk (it : Item) : Prop :=
  ∃ t, title it = Some t
    ∧ (10 ≤ String.length t ≤ 300)%nat
    ∧ includes (toLowerCase t) "view all" = false
    ∧ includes (toLowerCase t) "read more" = false
    ∧ includes (toLowerCase t) "subscribe" = false
    ∧ includes (toLowerCase t) "sign up" = false.

Definition lowerTitle (it : Item) : option string := toLowerCase <$> title it.

(** What the DOM loop maintains. *)
Definition domInv (st : ScrapeState) : Prop :=
  Forall domTitleOk (items st)
  ∧ NoDup (lowerTitle <$> items st)
  ∧ ∀ it, it ∈ items st → ∃ t, title it = Some t ∧ toLowerCase t ∈ seen st.

Definition stateOf (s : Step) : ScrapeState :=
  match s with Next st => st | Raised st => st end.

Definition titled (it : FeedItem) : Prop := f_title it ≠ "".

(** Fetches and sleeps take turns: a sleep stands only between two
    fetches. *)
Fixpoint alternates (log : list NetEvent) : Prop :=
  match log with
  | [] => True
  | [EvFetch _] => True
  | EvFetch _ :: EvSleep _ :: rest => rest ≠ [] ∧ alternates rest
  | _ => False
  end.

(** The sleeps of a log, in order. *)
Fixpoint sleepsOf (log : list NetEvent) : list Z :=
  match log with
  | [] => []
  | EvSleep ms :: rest => ms :: sleepsOf rest
  | EvFetch _ :: rest => sleepsOf rest
  end.

(** An attempt that ends in the exponential backoff: a rejected fetch, or a
    response that is neither a success nor any 4xx. *)
Definition transient (o : FetchOutcome) : Prop :=
  match o with
  | Rejected _ => True
  | Responded r => ok r = false ∧ ¬ (400 ≤ status r ≤ 499)
  end.

(** What such an attempt leaves in [lastError]. *)
Definition errorOf (o : FetchOutcome) : string :=
  match o with
  | Rejected message => message
  | Responded r => httpError (status r)
  end.

(** The text fields of a parsed item carry no tag. *)
Definition tagFree (it : FeedItem) : Prop :=
  hasTag (f_title it) = false
  ∧ hasTag (f_description it) = false
  ∧ hasTag (f_pubDate it) = false.

(** What every path of the scraper lets through. *)
Definition scrapedOk (config : ScrapeConfig) (it : Item) : Prop :=
  source it = c_name config
  ∧ ∃ t, title it = Some t
      ∧ (10 ≤ String.length t ≤ 300)%nat
      ∧ includes (toLowerCase t) "view all" = false
      ∧ includes (toLowerCase t) "read more" = false
      ∧ includes (toLowerCase t) "subscribe" = false.

(** What the regex-only loop lets through. *)
Definition regexTitleOk (it : Item) : Prop :=
  ∃ t, title it = Some t
    ∧ (15 ≤ String.length t ≤ 300)%nat
    ∧ includes (toLowerCase t) "view all" = false
    ∧ includes (toLowerCase t) "read more" = false
    ∧ includes (toLowerCase t) "subscribe" = false.

(** What the regex-only loop maintains. *)
Definition regexInv (st : ScrapeState) : Prop :=
  Forall regexTitleOk (items st)
  ∧ NoDup (lowerTitle <$> items st)
  ∧ ∀ it, it ∈ items st → ∃ t, title it = Some t ∧ toLowerCase t ∈ seen st.

(** The description is absent, empty or shorter than 150 characters. *)
Definition weakDescription (item : Item) : Prop :=
  truthyOpt (description item) = false
  ∨ (String.length (orEmpty (description item)) < 150)%nat.

(** The rule matches the item: the test of the pre-filter's inner loop. *)
Definition ruleHits (rule : RelevanceRule) (item : Item) : bool :=
  ruleMatches (orEmpty (toLowerCase <$> title item))
    (orEmpty (toLowerCase <$> description item))
    (toLowerCase (source item)) rule.

(** The four rule types the pre-filter acts on. *)
Definition excludeTypes : list string :=
  ["exclude_keyword"; "exclude_topic"; "exclude_title_pattern";
   "exclude_source_pattern"].

(** The keys under which a created record is later found in the store. *)
Definition savedTitleKey (record : NewUpdate) : option string :=
  normKey (nu_title record).
Definition savedUrlKey (record : NewUpdate) : option string :=
  normKey (Some (nu_source_url record)).

(** What the save loop maintains. *)
Definition saveInv (existingTitles existingUrls : gset (option string))
    (processed : nat) (st : SaveState) : Prop :=
  (length (savedUpdates st) + length (saveErrors st) = processed)%nat
  ∧ (∀ k, k ∈ savedTitlesThisBatch st ↔ (k ∈ savedTitleKey <$> savedUpdates st))
  ∧ (∀ k, nonEmptyKey k →
          (k ∈ savedUrlsThisBatch st ↔ (k ∈ savedUrlKey <$> savedUpdates st)))
  ∧ NoDup (savedTitleKey <$> savedUpdates st)
  ∧ NoDup (filter nonEmptyKey (savedUrlKey <$> savedUpdates st))
  ∧ (∀ r, r ∈ savedUpdates st →
          (savedTitleKey r ∉ existingTitles)
          ∧ (nonEmptyKey (savedUrlKey r) → savedUrlKey r ∉ existingUrls)).

(** A client error that is not "too many requests". *)
Definition clientError (st : Z) : Prop := 400 ≤ st ∧ st ≤ 499 ∧ st ≠ 429.

(** An attempt after which the loop goes on (given that attempts remain): a
    rejected fetch, or a response that is neither a success nor a client
    error. *)
Definition retried (o : FetchOutcome) : Prop :=
  match o with
  | Rejected _ => True
  | Responded r => ok r = false ∧ ¬ clientError (status r)
  end.

(* ===================================================================== *)
(** * Deduplicator: facts                                                 *)
(* ===================================================================== *)

Section DedupFacts.

Implicit Types (S U : gset (option string)) (l items : list Item) (x y : Item).

Lemma batchFilter_sublist S U l : batchFilter S U l `sublist_of` l.
Proof.
  revert S U; induction l as [|a l IH]; intros S U; simpl; [constructor|].
  destruct (bool_decide _); [apply sublist_cons, IH|].
  destruct (_ && _); [apply sublist_cons, IH|apply sublist_skip, IH].
Qed.

(** Whatever the walk keeps is fresh for the sets it started from, and the
    kept items are pairwise distinct on both keys. *)
Lemma batchFilter_fresh S U l :
  let out := batchFilter S U l in
  (∀ y, y ∈ out → (titleKey y ∉ S) ∧ (nonEmptyKey (urlKey y) → urlKey y ∉ U))
  ∧ NoDup (titleKey <$> out)
  ∧ NoDup (filter nonEmptyKey (urlKey <$> out)).
Proof.
  revert S U; induction l as [|a l IH]; intros S U; simpl.
  { split; [intros y Hy; inversion Hy | split; constructor]. }
  destruct (bool_decide (titleKey a ∈ S)) eqn:Ht; [apply IH|].
  destruct (truthyOpt (urlKey a) && bool_decide (urlKey a ∈ U)) eqn:Hu; [apply IH|].
  apply bool_decide_eq_false in Ht.
  destruct (IH ({[titleKey a]} ∪ S)
              (if truthyOpt (urlKey a) then {[urlKey a]} ∪ U else U))
    as (Hfresh & Hnt & Hnu).
  split; [|split].
  - intros y [->|Hy]%elem_of_cons.
    + split; [done|]. intros Hne. unfold nonEmptyKey in Hne.
      rewrite Hne in Hu. simpl in Hu. by apply bool_decide_eq_false in Hu.
    + destruct (Hfresh y Hy) as [H1 H2]. split; [set_solver|].
      intros Hne. specialize (H2 Hne). destruct (truthyOpt (urlKey a)); set_solver.
  - rewrite fmap_cons. apply NoDup_cons. split; [|done].
    intros (y & Heq & Hy)%list_elem_of_fmap.
    destruct (Hfresh y Hy) as [H1 _]. rewrite Heq in H1. set_solver.
  - rewrite fmap_cons, filter_cons.
    destruct (decide (nonEmptyKey (urlKey a))) as [Hne|Hne]; [|done].
    apply NoDup_cons. split; [|done].
    intros [_ (y & Heq & Hy)%list_elem_of_fmap]%list_elem_of_filter.
    destruct (Hfresh y Hy) as [_ H2]. unfold nonEmptyKey in Hne.
    rewrite Hne in H2. rewrite <- Heq in H2. specialize (H2 Hne). set_solver.
Qed.

(** Appending one item: it is kept exactly when neither set held its key at
    the start and no kept item blocks it. *)
Lemma batchFilter_snoc S U l x :
  batchFilter S U (l ++ [x]) =
  batchFilter S U l ++
    (if decide (titleKey x ∈ S ∨ (nonEmptyKey (urlKey x) ∧ urlKey x ∈ U)
                ∨ Exists (λ y, sameKey y x) (batchFilter S U l))
     then [] else [x]).
Proof.
  revert S U; induction l as [|a l IH]; intros S U; simpl.
  - destruct (bool_decide (titleKey x ∈ S)) eqn:Ht.
    { apply bool_decide_eq_true in Ht. rewrite decide_True; [done|by left]. }
    apply bool_decide_eq_false in Ht.
    destruct (truthyOpt (urlKey x) && bool_decide (urlKey x ∈ U)) eqn:Hu.
    { apply andb_true_iff in Hu as [Hu1 Hu2%bool_decide_eq_true].
      rewrite decide_True; [done|by right; left]. }
    rewrite decide_False; [done|].
    intros [?|[[Hne Hin]|Hex]]; [done| |by apply Exists_nil in Hex].
    unfold nonEmptyKey in Hne. rewrite Hne in Hu. simpl in Hu.
    by apply bool_decide_eq_false in Hu.
  - destruct (bool_decide (titleKey a ∈ S)) eqn:Ht; [apply IH|].
    destruct (truthyOpt (urlKey a) && bool_decide (urlKey a ∈ U)) eqn:Hu; [apply IH|].
    rewrite IH. simpl. f_equal. f_equal. apply decide_ext.
    rewrite Exists_cons. unfold sameKey at 2, nonEmptyKey.
    destruct (truthyOpt (urlKey a)) eqn:Ha;
      match goal with |- context [Exists ?P ?k] => generalize (Exists P k) end;
      intros E; rewrite ?elem_of_union, ?elem_of_singleton.
    + intuition congruence.
    + split; [intuition congruence|].
      intros [?|[?|[[?|[Hne Heq]]|?]]]; [tauto|tauto|by left; left| |tauto].
      rewrite Heq in Ha. congruence.
Qed.

Lemma filter_sublist_mono {A} (P : A → Prop) `{∀ a, Decision (P a)}
    (l1 l2 : list A) :
  l1 `sublist_of` l2 → filter P l1 `sublist_of` filter P l2.
Proof.
  induction 1 as [|a l1 l2 Hs IH|a l1 l2 Hs IH]; [constructor| |];
    rewrite ?filter_cons; destruct (decide (P a));
    auto using sublist_skip, sublist_cons.
Qed.

Lemma deduplicateItems_sublist now items st :
  deduplicateItems now items st `sublist_of` batchDedupe items.
Proof.
  unfold deduplicateItems.
  destruct (length (batchDedupe items) =? 0)%nat; [apply sublist_nil_l|].
  destruct (RegulatoryUpdate_filter_all st); [apply sublist_filter|done].
Qed.

(** C1 (amended).  Whatever the store answers, the deduplicator's output
    holds at most one item per normalized title and at most one item per
    normalized non-empty URL, and it is a sub-sequence of the batch.  The
    batch walk keeps an item exactly when no item kept before it has the same
    normalized title or the same normalized non-empty URL: a later duplicate
    of a kept item is dropped, while a first occurrence that was itself
    dropped blocks nothing. *)
Theorem dedupe_one_per_key now items st :
  let out := deduplicateItems now items st in
  NoDup (titleKey <$> out)
  ∧ NoDup (filter nonEmptyKey (urlKey <$> out))
  ∧ out `sublist_of` items
  ∧ ∀ x, batchDedupe (items ++ [x]) =
         batchDedupe items ++
           (if decide (Exists (λ y, sameKey y x) (batchDedupe items))
            then [] else [x]).
Proof.
  intros out.
  pose proof (deduplicateItems_sublist now items st) as Hsub. fold out in Hsub.
  destruct (batchFilter_fresh ∅ ∅ items) as (_ & Hnt & Hnu).
  fold (batchDedupe items) in Hnt, Hnu.
  split; [|split; [|split]].
  - eapply sublist_NoDup; [exact Hnt|]. by apply fmap_sublist.
  - eapply sublist_NoDup; [exact Hnu|].
    by apply filter_sublist_mono, fmap_sublist.
  - etrans; [exact Hsub|]. apply batchFilter_sublist.
  - intros x. unfold batchDedupe. rewrite batchFilter_snoc.
    f_equal. apply decide_ext. set_solver.
Qed.

(** C1, as stated, fails: [itemB] and [itemC] have the same normalized
    title, the first occurrence [itemB] is dropped (its URL is [itemA]'s) and
    the later [itemC] is kept. *)
Lemma dedupe_first_occurrence_counterexample :
  ∃ i j x y, (i < j)%nat ∧ dupBatch !! i = Some x ∧ dupBatch !! j = Some y
    ∧ titleKey x = titleKey y
    ∧ (x ∉ deduplicateItems 0 dupBatch emptyStore)
    ∧ (y ∈ deduplicateItems 0 dupBatch emptyStore).
Proof.
  exists 1%nat, 2%nat, itemB, itemC.
  assert (deduplicateItems 0 dupBatch emptyStore = [itemA; itemC]) as ->
    by (vm_compute; reflexivity).
  split; [lia|]. split; [done|]. split; [done|]. split; [by vm_compute|].
  split; [|by apply elem_of_cons; right; left].
  intros [Heq|[Heq|Hin]%elem_of_cons]%elem_of_cons;
    [discriminate|discriminate|inversion Hin].
Qed.

(** C3.  The history check consults a record written a hundred days ago,
    outside the sixty-day window its comment announces: the cutoff
    [sixtyDaysAgo] is computed and never passed to the query. *)
Lemma history_check_reads_outside_window :
  u_created oldRecord < daysBefore day100 60
  ∧ deduplicateItems day100 [reprint] oldStore = []
  ∧ deduplicateItems day100 [reprint] emptyStore = [reprint].
Proof. split; [by vm_compute|]. split; vm_compute; reflexivity. Qed.

(** The part of C3 that holds: at most the first 500 records returned are
    consulted. *)
Lemma history_check_capped now items (recs extra : list RegulatoryUpdate) :
  length recs = 500%nat →
  deduplicateItems now items (mkStore true (recs ++ extra)) =
  deduplicateItems now items (mkStore true recs).
Proof.
  intros Hlen. unfold deduplicateItems, RegulatoryUpdate_filter_all. simpl.
  destruct (length (batchDedupe items) =? 0)%nat; [done|].
  rewrite length_app, Hlen, Nat.ltb_irrefl.
  destruct (500 <? 500 + length extra)%nat eqn:E.
  - by rewrite take_app_length'.
  - apply Nat.ltb_ge in E. destruct extra; [by rewrite app_nil_r|simpl in E; lia].
Qed.

(** The part of C3 that holds: an item survives the history check exactly
    when neither its normalized title nor its normalized non-empty URL is
    among the keys of the consulted records. *)
Lemma history_check_drops now items (recs : list RegulatoryUpdate) x :
  (length recs ≤ 500)%nat →
  x ∈ deduplicateItems now items (mkStore true recs) ↔
  x ∈ batchDedupe items
  ∧ ¬ (nonEmptyKey (titleKey x) ∧ titleKey x ∈ (λ u, normKey (u_title u)) <$> recs)
  ∧ ¬ (nonEmptyKey (urlKey x) ∧ urlKey x ∈ (λ u, normKey (u_source_url u)) <$> recs).
Proof.
  intros Hlen. unfold deduplicateItems, RegulatoryUpdate_filter_all. simpl.
  destruct (length (batchDedupe items) =? 0)%nat eqn:E.
  { apply Nat.eqb_eq, nil_length_inv in E. rewrite E. set_solver. }
  replace (500 <? length recs)%nat with false by (symmetry; apply Nat.ltb_ge; lia).
  rewrite list_elem_of_filter. unfold notInHistory, keySet, nonEmptyKey.
  rewrite !bool_decide_decide.
  destruct (decide (titleKey x ∈ _)) as [Ht|Ht];
    rewrite elem_of_list_to_set, list_elem_of_filter in Ht.
  { split; [by intros [? _]|]. intros (_ & Hn & _). by destruct Hn. }
  destruct (truthyOpt (urlKey x)) eqn:Hu; simpl.
  - destruct (decide (urlKey x ∈ _)) as [Hv|Hv];
      rewrite elem_of_list_to_set, list_elem_of_filter in Hv.
    + split; [by intros [? _]|]. intros (_ & _ & Hn). destruct Hn.
      by destruct Hv.
    + split; [|tauto]. intros [_ Hin]. split; [done|]. split; [done|].
      intros [_ ?]. apply Hv. by rewrite Hu.
  - split; [|tauto]. intros [_ Hin]. split; [done|]. split; [done|].
    by intros [? _].
Qed.

End DedupFacts.

(* ===================================================================== *)
(** * Retrying fetcher: facts                                             *)
(* ===================================================================== *)

Section FetchFacts.
Context `{Platform}.
Variable net : Network.

Lemma clientError_not_ok r : clientError (status r) → ok r = false.
Proof. unfold clientError, ok. intros (? & ? & ?). lia. Qed.

Lemma last_cons_some {A} (a : A) (l : list A) (z : A) :
  last l = Some z → last (a :: l) = Some z.
Proof. destruct l; [done|]. by rewrite last_cons_cons. Qed.

(** From any attempt on: when the next [k] attempts are retried and the one
    after them meets a client error, the loop ends there. *)
Lemma fetchLoop_client_error url maxRetries r :
  clientError (status r) →
  ∀ k fuel attempt lastError,
    (k < fuel)%nat →
    (attempt + fuel = maxRetries)%nat →
    (∀ j, (j < k)%nat → retried (respond net url (attempt + j))) →
    respond net url (attempt + k) = Responded r →
    ∃ log,
      fetchLoop net url maxRetries fuel attempt lastError =
        (FetchFailed (Some (httpError (status r))) (attempt + k + 1), log)
      ∧ fetchCount log = (k + 1)%nat
      ∧ last log = Some (EvFetch url).
Proof.
  intros Hce. pose proof (clientError_not_ok r Hce) as Hok.
  induction k as [|k IH]; intros fuel attempt lastError Hk Hfuel Hretry Hresp.
  - destruct fuel as [|fuel]; [lia|]. simpl.
    rewrite Nat.add_0_r in Hresp. rewrite Hresp, Hok.
    destruct Hce as (H1 & H2 & H3).
    replace (status r =? 429) with false by lia. simpl.
    replace ((400 <=? status r) && (status r <? 500)) with true by lia.
    exists [EvFetch url]. by rewrite Nat.add_0_r.
  - destruct fuel as [|fuel]; [lia|].
    destruct (IH fuel (S attempt) lastError) as (log & Hlog & Hcount & Hlast);
      [lia|lia| |by replace (S attempt + k)%nat with (attempt + S k)%nat by lia|].
    { intros j Hj. replace (S attempt + j)%nat with (attempt + S j)%nat by lia.
      apply Hretry. lia. }
    assert (∀ le, ∃ log',
      fetchLoop net url maxRetries fuel (S attempt) le =
        (FetchFailed (Some (httpError (status r))) (attempt + S k + 1), log')
      ∧ fetchCount log' = (k + 1)%nat ∧ last log' = Some (EvFetch url)) as Hany.
    { intros le. destruct (IH fuel (S attempt) le) as (l' & E & ? & ?);
        [lia|lia| |by replace (S attempt + k)%nat with (attempt + S k)%nat by lia|].
      { intros j Hj. replace (S attempt + j)%nat with (attempt + S j)%nat by lia.
      apply Hretry. lia. }
      exists l'. split; [|done]. rewrite E. do 2 f_equal. lia. }
    clear IH log Hlog Hcount Hlast.
    pose proof (Hretry 0%nat ltac:(lia)) as H0. rewrite Nat.add_0_r in H0.
    simpl. replace (attempt + 1 <? maxRetries)%nat with true
      by (symmetry; apply Nat.ltb_lt; lia).
    destruct (respond net url attempt) as [r0|msg]; simpl in H0.
    + destruct H0 as [Hok0 Hnce]. rewrite Hok0.
      destruct (status r0 =? 429) eqn:E429; simpl.
      * destruct (Hany lastError) as (l' & -> & Hc & Hl).
        eexists. split; [reflexivity|]. simpl. split; [lia|].
        eauto using last_cons_some.
      * unfold clientError in Hnce.
        replace ((400 <=? status r0) && (status r0 <? 500)) with false by lia.
        destruct (Hany (Some (httpError (status r0)))) as (l' & -> & Hc & Hl).
        eexists. split; [reflexivity|]. simpl. split; [lia|].
        eauto using last_cons_some.
    + destruct (Hany (Some msg)) as (l' & -> & Hc & Hl).
      eexists. split; [reflexivity|]. simpl. split; [lia|].
      eauto using last_cons_some.
Qed.

(** C4.  A response with a status in 400..499 other than 429 ends the call at
    once: when the first [k] attempts were retried and attempt [k] (counted
    from 0, within [maxRetries]) meets such a status, the call fails with
    [HTTP <status>] and the attempt count [k + 1], after exactly [k + 1]
    fetches, the last event being that fetch (no sleep, no further attempt).
    Against a server that always answers 404 this is [k = 0]: one attempt,
    attempt count 1. *)
Theorem client_error_not_retried url maxRetries k r :
  (k < maxRetries)%nat →
  (∀ j, (j < k)%nat → retried (respond net url j)) →
  respond net url k = Responded r →
  clientError (status r) →
  ∃ log,
    fetchWithRetry net url maxRetries =
      (FetchFailed (Some (httpError (status r))) (k + 1), log)
    ∧ success (fst (fetchWithRetry net url maxRetries)) = false
    ∧ fetchCount log = (k + 1)%nat
    ∧ last log = Some (EvFetch url).
Proof.
  intros Hk Hretry Hresp Hce. unfold fetchWithRetry.
  destruct (fetchLoop_client_error url maxRetries r Hce k maxRetries 0%nat None)
    as (log & E & Hc & Hl); [done|done|done|done|].
  exists log. rewrite E. done.
Qed.

End FetchFacts.

(* ===================================================================== *)
(** * Feed parser: facts                                                  *)
(* ===================================================================== *)

Section StringFacts.

Lemma truthyStr_nonempty s : truthyStr s = true → s ≠ "".
Proof. by destruct s. Qed.

(** Stripping removes characters only. *)
Lemma stripTagsFrom_containsChar c b s :
  containsChar c (stripTagsFrom b s) = true → containsChar c s = true.
Proof.
  revert b; induction s as [|d s IH]; intros b; simpl; [done|].
  destruct b.
  - intros Hc%IH. rewrite Hc. apply orb_true_r.
  - destruct (Ascii.eqb d "<" && containsChar ">" s).
    + intros Hc%IH. rewrite Hc. apply orb_true_r.
    + simpl. intros [->|Hc%IH]%orb_true_iff; [done|].
      rewrite Hc. apply orb_true_r.
Qed.

(** After stripping, no ['<'] has a ['>'] behind it. *)
Lemma stripTagsFrom_no_tag b s : hasTag (stripTagsFrom b s) = false.
Proof.
  revert b; induction s as [|c s IH]; intros b; simpl; [done|].
  destruct b; [apply IH|].
  destruct (Ascii.eqb c "<") eqn:Ec; simpl.
  - destruct (containsChar ">" s) eqn:Eg; [apply IH|].
    simpl. rewrite Ec, IH. simpl.
    destruct (containsChar ">" (stripTagsFrom false s)) eqn:E; [|done].
    apply stripTagsFrom_containsChar in E. congruence.
  - by rewrite Ec, IH.
Qed.

Lemma stripTags_no_tag s : hasTag (stripTags s) = false.
Proof. apply stripTagsFrom_no_tag. Qed.

End StringFacts.

Section FeedFacts.
Context `{Platform}.

(** The part of C7 that holds: the text extracted from any value carries no
    tag. *)
Lemma extractTextContent_no_tag value : hasTag (extractTextContent value) = false.
Proof.
  unfold extractTextContent. destruct (negb (truthy value)); [done|].
  destruct value; try apply stripTags_no_tag;
    repeat (destruct (truthy _); [apply stripTags_no_tag|]); done.
Qed.

(** C7.  A plain string, a [#text] wrapper and a [#cdata] wrapper holding
    [<p> Title </p>] all come out as [ Title ], with a leading and a trailing
    space: the value is trimmed before the tags are stripped, so white space
    that stood inside the markup stays. *)
Lemma extractTextContent_not_trimmed :
  extractTextContent (VStr wrappedTitle) = " Title "
  ∧ extractTextContent (VObj [("#text", VStr wrappedTitle)]) = " Title "
  ∧ extractTextContent (VObj [("#cdata", VStr wrappedTitle)]) = " Title "
  ∧ trim " Title " ≠ " Title ".
Proof. repeat split; try (vm_compute; reflexivity). by vm_compute. Qed.

Lemma rssItem_titled feedName item it :
  rssItem feedName item = Ok (Some it) → f_title it ≠ "".
Proof.
  unfold rssItem. destruct (member item "title") as [t|]; simpl; [|done].
  destruct (truthyStr (extractTextContent t)) eqn:E; [|done].
  intros [= <-]. simpl. by apply truthyStr_nonempty.
Qed.

Lemma atomEntry_titled feedName entry it :
  atomEntry feedName entry = Ok (Some it) → f_title it ≠ "".
Proof.
  unfold atomEntry. destruct (member entry "title") as [t|]; simpl; [|done].
  destruct (atomLink entry) as [l|]; simpl; [|done].
  destruct (truthyStr (extractTextContent t)) eqn:E; [|done].
  intros [= <-]. simpl. by apply truthyStr_nonempty.
Qed.

Lemma rdfItem_titled feedName item it :
  rdfItem feedName item = Ok (Some it) → f_title it ≠ "".
Proof.
  unfold rdfItem. destruct (member item "title") as [t|]; simpl; [|done].
  destruct (truthyStr (extractTextContent t)) eqn:E; [|done].
  intros [= <-]. simpl. by apply truthyStr_nonempty.
Qed.

(** A loop whose body pushes titled items only keeps [items] titled. *)
Lemma pushEach_titled body :
  (∀ x it, body x = Ok (Some it) → f_title it ≠ "") →
  ∀ l items out,
    Forall titled items → pushEach body l items = Ok out → Forall titled out.
Proof.
  intros Hbody. induction l as [|x l IH]; intros items out Hitems; simpl.
  - by intros [= <-].
  - destruct (body x) as [[it|]|] eqn:E; simpl; [| |done].
    + apply IH. apply Forall_app. split; [done|].
      apply Forall_singleton. unfold titled. by eapply Hbody.
    + by apply IH.
Qed.

Lemma parseStructured_titled xmlText feedName out :
  parseStructured xmlText feedName = Ok out → Forall titled out.
Proof.
  unfold parseStructured. destruct (parseXML xmlText) as [parsed|]; simpl; [|done].
  set (rss := optMember (optMember (optMember parsed "rss") "channel") "item").
  set (atom := optMember (optMember parsed "feed") "entry").
  set (rdf := optMember (optMember parsed "rdf:RDF") "item").
  destruct (if truthy rss then _ else _) as [items1|] eqn:E1; simpl; [|done].
  assert (Forall titled items1) as H1.
  { destruct (truthy rss); [|by injection E1 as <-].
    eapply pushEach_titled; [apply rssItem_titled|constructor|exact E1]. }
  destruct (if truthy atom then _ else _) as [items2|] eqn:E2; simpl; [|done].
  assert (Forall titled items2) as H2.
  { destruct (truthy atom); [|by injection E2 as <-].
    eapply pushEach_titled; [apply atomEntry_titled|exact H1|exact E2]. }
  destruct (truthy rdf); [|by intros [= <-]].
  intros E3. eapply pushEach_titled; [apply rdfItem_titled|exact H2|exact E3].
Qed.

Lemma parseRssFeedFallback_titled xmlText feedName :
  Forall titled (parseRssFeedFallback xmlText feedName).
Proof.
  unfold parseRssFeedFallback.
  destruct (length _ =? 0)%nat; apply Forall_forall;
    intros it (m & _ & Hm)%list_elem_of_omap;
    unfold fallbackItem, fallbackEntry in Hm;
    destruct (truthyStr (extractTagFallback _ "title")) eqn:E; try done;
    injection Hm as <-; unfold titled; simpl; by apply truthyStr_nonempty.
Qed.

(** C6.  Every item that [parseRssFeed] returns, from the structured
    branches (RSS 2.0, Atom, RDF) or from the regex fallback, has a
    non-empty title: an item whose extracted title is empty is not pushed. *)
Theorem parseRssFeed_titles_nonempty xmlText feedName :
  Forall (λ it, f_title it ≠ "") (parseRssFeed xmlText feedName).
Proof.
  unfold parseRssFeed.
  destruct (parseStructured xmlText feedName) as [items|] eqn:E.
  - by eapply parseStructured_titled.
  - apply parseRssFeedFallback_titled.
Qed.

End FeedFacts.

(* ===================================================================== *)
(** * Per-source fetch: facts                                             *)
(* ===================================================================== *)

Section RssFetchFacts.
Context `{Platform}.
Variable net : Network.

Lemma fetchRssFeed_items now feed dateRangeDays :
  ff_items (fetchRssFeed net now feed dateRangeDays) =
  match fst (fetchWithRetry net (feed_url feed) 3) with
  | FetchOk response _ =>
      take 20 (filter (λ it, isWithinDateRange now (f_pubDate it)
                               dateRangeDays = true)
                 (parseRssFeed (body response) (feed_name feed)))
  | FetchFailed _ _ => []
  end.
Proof.
  unfold fetchRssFeed. by destruct (fst (fetchWithRetry net (feed_url feed) 3)).
Qed.

Lemma fetchRssFeed_in_range now feed dateRangeDays :
  Forall (λ it, isWithinDateRange now (f_pubDate it) dateRangeDays = true)
    (ff_items (fetchRssFeed net now feed dateRangeDays)).
Proof.
  rewrite fetchRssFeed_items.
  destruct (fst (fetchWithRetry net (feed_url feed) 3)); [|constructor].
  apply Forall_take, Forall_forall. by intros it [? _]%list_elem_of_filter.
Qed.

(** C9.  [fetchRssFeed] returns at most 20 items for a source: the first 20
    of the parsed items that pass the date-range filter (none on a failed
    fetch), all of them within the range. *)
Theorem fetchRssFeed_capped now feed dateRangeDays :
  let out := ff_items (fetchRssFeed net now feed dateRangeDays) in
  (length out ≤ 20)%nat
  ∧ Forall (λ it, isWithinDateRange now (f_pubDate it) dateRangeDays = true) out
  ∧ out = match fst (fetchWithRetry net (feed_url feed) 3) with
          | FetchOk response _ =>
              take 20 (filter (λ it, isWithinDateRange now (f_pubDate it)
                                       dateRangeDays = true)
                         (parseRssFeed (body response) (feed_name feed)))
          | FetchFailed _ _ => []
          end.
Proof.
  intros out. split; [|split].
  - unfold out. rewrite fetchRssFeed_items.
    destruct (fst (fetchWithRetry net (feed_url feed) 3)); simpl; [|lia].
    rewrite length_take. lia.
  - apply fetchRssFeed_in_range.
  - apply fetchRssFeed_items.
Qed.

(** C10.  The date-range filter treats the two kinds of bad date
    differently: an item whose [pubDate] is empty passes
    ([isWithinDateRange] is [true]) and stays in the filtered list, an item
    whose [pubDate] is a non-empty string that does not parse fails and is
    filtered out. *)
Theorem date_filter_asymmetric now dateRangeDays (items : list FeedItem)
    (undated misdated : FeedItem) :
  undated ∈ items →
  f_pubDate undated = "" →
  f_pubDate misdated ≠ "" →
  Date_parse (f_pubDate misdated) = None →
  let inRange := λ it, isWithinDateRange now (f_pubDate it) dateRangeDays = true in
  isWithinDateRange now (f_pubDate undated) dateRangeDays = true
  ∧ isWithinDateRange now (f_pubDate misdated) dateRangeDays = false
  ∧ undated ∈ filter inRange items
  ∧ (misdated ∉ filter inRange items)
  ∧ ∀ feed, misdated ∉ ff_items (fetchRssFeed net now feed dateRangeDays).
Proof.
  intros Hin Hempty Hne Hnan inRange.
  assert (isWithinDateRange now (f_pubDate undated) dateRangeDays = true) as Hu.
  { unfold isWithinDateRange. by rewrite Hempty. }
  assert (isWithinDateRange now (f_pubDate misdated) dateRangeDays = false) as Hm.
  { unfold isWithinDateRange. rewrite Hnan.
    destruct (f_pubDate misdated); [done|reflexivity]. }
  split; [done|]. split; [done|]. split; [by apply list_elem_of_filter|].
  split.
  - intros [Hr _]%list_elem_of_filter. unfold inRange in Hr. congruence.
  - intros feed Hin'.
    pose proof (fetchRssFeed_in_range now feed dateRangeDays) as Hall.
    rewrite Forall_forall in Hall. specialize (Hall _ Hin'). simpl in Hall.
    congruence.
Qed.

End RssFetchFacts.

(* ===================================================================== *)
(** * Content enricher: facts                                             *)
(* ===================================================================== *)

Section EnrichFacts.
Context `{Platform}.
Variable net : Network.

(** C8.  An item whose link is missing (absent or empty) or does not start
    with [http] comes back unchanged, and no request is made. *)
Theorem enrich_skips_relative_link item :
  truthyOpt (link item) = false ∨ startsWith (orEmpty (link item)) "http" = false →
  enrichArticleContent net item = (item, []).
Proof.
  intros Hlink. unfold enrichArticleContent.
  by destruct Hlink as [-> | ->]; rewrite ?orb_true_r.
Qed.

End EnrichFacts.

(* ===================================================================== *)
(** * Source health: facts                                                *)
(* ===================================================================== *)

Section HealthFacts.

(** C2.  A source that fails on its first three scans ends with
    [consecutive_failures = 2], not 3: the first scan finds no record and
    creates one from a health record that carries no counter, and only the
    two updates that follow count.  (The status is [failing], and a
    successful fourth scan gives 0 and [healthy].) *)
Lemma three_failures_from_first_scan :
  let failed := @scanRssSource barePlatform (serverAlways 503 "") day100 ftcFeed 14 in
  let passed := @scanRssSource barePlatform (serverAlways 200 "") day100 ftcFeed 14 in
  ∃ r1 r3 r4,
    failed [] = [mkStored 1 r1]
    ∧ consecutive_failures r1 = None
    ∧ failed (failed (failed [])) = [mkStored 1 r3]
    ∧ consecutive_failures r3 = Some 2
    ∧ health_status r3 = Some failing
    ∧ passed (failed (failed (failed []))) = [mkStored 1 r4]
    ∧ consecutive_failures r4 = Some 0
    ∧ health_status r4 = Some healthy.
Proof. do 3 eexists. vm_compute. repeat split; reflexivity. Qed.

(** The part of C2 that holds: once the record exists, each health record
    with status [failing] adds one and any other status stores 0. *)
Lemma persistHealth_update id prev health :
  source_url prev = source_url health →
  persistHealth health [mkStored id prev] =
  [mkStored id
     (applyPatch prev
        (withFailures health
           (match health_status health with
            | Some failing => default 0 (consecutive_failures prev) + 1
            | _ => 0
            end)))].
Proof.
  intros Hurl. unfold persistHealth, SourceHealth_filter.
  rewrite filter_cons, decide_True by done. simpl. by rewrite Nat.eqb_refl.
Qed.

Lemma sh_id_le_max (st : list StoredHealth) r :
  r ∈ st → (sh_id r ≤ foldr Nat.max 0%nat (map sh_id st))%nat.
Proof.
  induction st as [|a st IH]; [by intros ?%elem_of_nil|].
  intros [->|Hr%IH]%elem_of_cons; simpl; lia.
Qed.

(** No record for the URL yet: the health record is stored as it is. *)
Lemma persistHealth_create health st :
  SourceHealth_filter (source_url health) st = [] →
  persistHealth health st =
  st ++ [mkStored (S (foldr Nat.max 0%nat (map sh_id st))) health].
Proof. intros Hnone. unfold persistHealth. by rewrite Hnone. Qed.

(** The record for the URL is the last one and its id is its own: it is
    patched, with the counter the update branch computes. *)
Lemma persistHealth_patch health prev id st :
  SourceHealth_filter (source_url health) st = [] →
  source_url prev = source_url health →
  (∀ r, r ∈ st → sh_id r ≠ id) →
  persistHealth health (st ++ [mkStored id prev]) =
  st ++ [mkStored id
           (applyPatch prev
              (withFailures health
                 (match health_status health with
                  | Some failing => default 0 (consecutive_failures prev) + 1
                  | _ => 0
                  end)))].
Proof.
  intros Hnone Hurl Hid. unfold persistHealth, SourceHealth_filter in *.
  rewrite filter_app, Hnone, filter_cons, decide_True by done. simpl.
  unfold SourceHealth_update. rewrite map_app. simpl. rewrite Nat.eqb_refl.
  f_equal. rewrite <- (map_id st) at 2. apply map_ext_in.
  intros r Hr%list_elem_of_In. apply Hid in Hr.
  by apply Nat.eqb_neq in Hr as ->.
Qed.

(** The failing input of C2 in general: for any source that has no health
    record, three health records with status [failing] and no counter (what
    a failed fetch produces) leave the counter at 2. *)
Lemma three_failing_records_count_two h1 h2 h3 st :
  SourceHealth_filter (source_url h1) st = [] →
  source_url h2 = source_url h1 →
  source_url h3 = source_url h1 →
  health_status h1 = Some failing → consecutive_failures h1 = None →
  health_status h2 = Some failing →
  health_status h3 = Some failing →
  ∃ id r,
    persistHealth h3 (persistHealth h2 (persistHealth h1 st)) =
      st ++ [mkStored id r]
    ∧ consecutive_failures r = Some 2
    ∧ health_status r = Some failing.
Proof.
  intros Hnone Hu2 Hu3 Hs1 Hc1 Hs2 Hs3.
  set (id := S (foldr Nat.max 0%nat (map sh_id st))).
  assert (∀ r, r ∈ st → sh_id r ≠ id) as Hid.
  { intros r Hr%sh_id_le_max. unfold id. lia. }
  rewrite (persistHealth_create h1 st) by done. fold id.
  rewrite (persistHealth_patch h2 h1 id st) by (rewrite ?Hu2; done).
  rewrite persistHealth_patch by (rewrite ?Hu3; done).
  eexists id, _. split; [reflexivity|].
  rewrite Hs2, Hs3, Hc1. simpl. by rewrite Hs3.
Qed.

(** What a failed fetch reports. *)
Lemma fetchRssFeed_failing `{Platform} net now feed dateRangeDays error attempt :
  fst (fetchWithRetry net (feed_url feed) 3) = FetchFailed error attempt →
  let h := ff_health (fetchRssFeed net now feed dateRangeDays) in
  source_url h = feed_url feed
  ∧ health_status h = Some failing
  ∧ consecutive_failures h = None.
Proof. intros Hfail. unfold fetchRssFeed. by rewrite Hfail. Qed.

End HealthFacts.

(* ===================================================================== *)
(** * Site scraper: facts                                                 *)
(* ===================================================================== *)

Section ScrapeFacts.
Context `{Platform}.
Variable net : Network.

Lemma domItem_title config now el t l it :
  domItem config now el t l = Ok it → title it = Some t.
Proof.
  unfold domItem.
  destruct (absoluteLink config l); simpl; [|done].
  destruct (pubDateOf config now el); simpl; [|done].
  destruct (if truthyOpt (descriptionSelector config) then _ else _); simpl; [|done].
  destruct (if truthyOpt (authorSelector config) then _ else _); simpl; [|done].
  by intros [= <-].
Qed.

Lemma domInv_seen st k :
  domInv st → domInv (mkScrapeState (items st) ({[k]} ∪ seen st)).
Proof.
  intros (H1 & H2 & H3). split; [done|]. split; [done|]. simpl.
  intros it Hit. destruct (H3 it Hit) as (t & ? & ?). exists t. set_solver.
Qed.

Lemma domStep_inv config now el st :
  domInv st →
  domInv (stateOf (domStep config now el st))
  ∧ (length (items (stateOf (domStep config now el st))) ≤ S (length (items st)))%nat.
Proof.
  intros Hinv. unfold domStep.
  destruct (titleAndAnchor config el) as [[[anchor|] raw]|]; simpl; [|auto..].
  set (t := trim (collapseWhiteSpace raw)).
  destruct (negb (truthyStr t) || (String.length t <? 10)%nat
            || bool_decide (toLowerCase t ∈ seen st)) eqn:Eskip; simpl; [auto|].
  destruct (includes (toLowerCase t) "view all"
            || includes (toLowerCase t) "read more"
            || includes (toLowerCase t) "subscribe"
            || includes (toLowerCase t) "sign up"
            || (300 <? String.length t)%nat) eqn:Estop; simpl; [auto|].
  destruct (domItem config now el t _) as [it|] eqn:Eit; simpl.
  2:{ split; [by apply domInv_seen|lia]. }
  apply domItem_title in Eit.
  apply orb_false_iff in Eskip as [[_ Hlen%Nat.ltb_ge]%orb_false_iff
                                     Hseen%bool_decide_eq_false].
  repeat (apply orb_false_iff in Estop as [Estop ?]).
  destruct Hinv as (Hgood & Hnd & Hmem).
  split; [|rewrite length_app; simpl; lia].
  split; [|split]; simpl.
  - apply Forall_app. split; [done|]. apply Forall_singleton.
    exists t. repeat split; try done. by apply Nat.ltb_ge.
  - rewrite fmap_app. apply NoDup_app. split; [done|]. split.
    + intros k (it' & -> & Hit')%list_elem_of_fmap Hk.
      apply list_elem_of_singleton in Hk. unfold lowerTitle in Hk.
      destruct (Hmem it' Hit') as (t' & Et' & Hin). rewrite Eit, Et' in Hk.
      simpl in Hk. congruence.
    + apply NoDup_singleton.
  - intros it' [Hit'| ->%list_elem_of_singleton]%elem_of_app.
    + destruct (Hmem it' Hit') as (t' & ? & ?). exists t'. set_solver.
    + exists t. set_solver.
Qed.

Lemma domLoop_inv config now els :
  ∀ st, domInv st →
  domInv (stateOf (domLoop config now els st))
  ∧ (length (items (stateOf (domLoop config now els st)))
     ≤ length els + length (items st))%nat.
Proof.
  induction els as [|el els IH]; intros st Hinv; simpl; [auto|].
  destruct (domStep_inv config now el st Hinv) as [Hinv' Hlen].
  destruct (domStep config now el st) as [st'|st']; simpl in *.
  - destruct (IH st' Hinv') as [? ?]. split; [done|lia].
  - split; [done|lia].
Qed.

(** C5 (amended).  When the page is fetched, parsed and walked in DOM-query
    mode without a throw, the items returned are those the DOM loop pushed,
    at most 20, and each of them has a title of 10 to 300 characters whose
    lower-case form contains none of [view all], [read more], [subscribe],
    [sign up]; no two of them have the same lower-case title. *)
Theorem dom_mode_filtering config now response attempt doc elements st :
  fst (fetchWithRetry net (c_url config) 3) = FetchOk response attempt →
  useRegexOnly config && isSome (titlePattern config) = false →
  parseFromString (body response) = Ok (Some doc) →
  querySelectorAll doc (articleSelectors config) = Ok elements →
  domLoop config now (take 20 elements) (mkScrapeState [] ∅) = Next st →
  let out := sr_items (scrapeWebsite net config now) in
  out = items st
  ∧ (length out ≤ 20)%nat
  ∧ Forall domTitleOk out
  ∧ NoDup (lowerTitle <$> out).
Proof.
  intros Hfetch Hmode Hparse Hsel Hloop out.
  assert (out = items st) as ->.
  { unfold out, scrapeWebsite. rewrite Hfetch.
    destruct (useRegexOnly config), (titlePattern config); simpl in Hmode;
      try discriminate; by rewrite Hparse, Hsel, Hloop. }
  destruct (domLoop_inv config now (take 20 elements) (mkScrapeState [] ∅))
    as [(H1 & H2 & _) Hlen].
  { split; [constructor|]. split; [constructor|]. intros it Hit. inversion Hit. }
  rewrite Hloop in *. simpl in *. rewrite length_take in Hlen.
  split; [done|]. split; [lia|]. done.
Qed.

End ScrapeFacts.

(* ===================================================================== *)
(** * The theorems at sample inputs                                       *)
(* ===================================================================== *)

(** A server that always answers 404: one attempt, attempt count 1. *)
Lemma client_error_not_retried_witness :
  ∃ log,
    @fetchWithRetry barePlatform (serverAlways 404 "") (feed_url ftcFeed) 3 =
      (FetchFailed (Some "HTTP 404") 1, log)
    ∧ success (fst (@fetchWithRetry barePlatform (serverAlways 404 "")
                      (feed_url ftcFeed) 3)) = false
    ∧ fetchCount log = 1%nat
    ∧ last log = Some (EvFetch (feed_url ftcFeed)).
Proof.
  apply (@client_error_not_retried barePlatform (serverAlways 404 "")
           (feed_url ftcFeed) 3 0 (mkResponse 404 None "")).
  - lia.
  - intros j Hj. lia.
  - reflexivity.
  - unfold clientError. simpl. lia.
Defined.

(** An item with a relative link is returned as it came. *)
Lemma enrich_skips_relative_link_witness :
  @enrichArticleContent barePlatform (serverAlways 200 "") relativeItem =
  (relativeItem, []).
Proof.
  apply (@enrich_skips_relative_link barePlatform (serverAlways 200 "") relativeItem).
  right. reflexivity.
Defined.

(** An undated item passes the date filter, a misdated one does not. *)
Lemma date_filter_asymmetric_witness :
  let inRange := λ it,
    @isWithinDateRange barePlatform day100 (f_pubDate it) 14 = true in
  @isWithinDateRange barePlatform day100 (f_pubDate undatedItem) 14 = true
  ∧ @isWithinDateRange barePlatform day100 (f_pubDate misdatedItem) 14 = false
  ∧ undatedItem ∈ filter inRange [undatedItem; misdatedItem]
  ∧ (misdatedItem ∉ filter inRange [undatedItem; misdatedItem])
  ∧ ∀ feed, misdatedItem ∉
      ff_items (@fetchRssFeed barePlatform (serverAlways 200 "") day100 feed 14).
Proof.
  apply (@date_filter_asymmetric barePlatform (serverAlways 200 "") day100 14
           [undatedItem; misdatedItem] undatedItem misdatedItem).
  - apply elem_of_cons. left. reflexivity.
  - reflexivity.
  - discriminate.
  - reflexivity.
Defined.

(** The sample page in DOM-query mode. *)
Lemma dom_mode_filtering_witness :
  let out := sr_items (@scrapeWebsite pagePlatform (serverAlways 200 "")
                         domConfig day100) in
  (length out ≤ 20)%nat ∧ Forall domTitleOk out ∧ NoDup (lowerTitle <$> out).
Proof.
  edestruct (@dom_mode_filtering pagePlatform (serverAlways 200 "") domConfig
               day100) as (_ & Hlen & Hok & Hnd).
  - reflexivity.
  - reflexivity.
  - reflexivity.
  - reflexivity.
  - vm_compute. reflexivity.
  - exact (conj Hlen (conj Hok Hnd)).
Defined.

(** C5, as stated, fails: in DOM-query mode a title of 13 characters is
    returned, while regex-only mode drops the same title from the same
    page. *)
Lemma dom_mode_short_title_counterexample :
  (∃ it, it ∈ sr_items (@scrapeWebsite pagePlatform (serverAlways 200 "")
                          domConfig day100)
         ∧ title it = Some shortTitle)
  ∧ (String.length shortTitle < 15)%nat
  ∧ sr_items (@scrapeWebsite pagePlatform (serverAlways 200 "")
                regexConfig day100) = [].
Proof.
  split; [|split; [vm_compute; lia|vm_compute; reflexivity]].
  eexists. split.
  - vm_compute. apply elem_of_cons. left. reflexivity.
  - reflexivity.
Qed.

(* ===================================================================== *)
(** * Retrying fetcher: further facts                                     *)
(* ===================================================================== *)

Section FetchTraceFacts.
Context `{Platform}.
Variable net : Network.

(** The shape of every run of the loop. *)
Lemma fetchLoop_shape url maxRetries :
  ∀ fuel attempt lastError,
    (attempt + fuel = maxRetries)%nat →
    let res := fetchLoop net url maxRetries fuel attempt lastError in
    attemptOf res.1 = (attempt + fetchCount res.2)%nat
    ∧ (attemptOf res.1 ≤ maxRetries)%nat
    ∧ alternates res.2
    ∧ ((0 < fuel)%nat → res.2 ≠ []).
Proof.
  induction fuel as [|fuel IH]; intros attempt lastError Hsum.
  { simpl. split; [lia|]. split; [lia|]. split; [done|intros ?; lia]. }
  assert (∀ le w,
    let res := fetchLoop net url maxRetries fuel (S attempt) le in
    let log := if (attempt + 1 <? maxRetries)%nat
               then EvFetch url :: EvSleep w :: res.2
               else EvFetch url :: res.2 in
    attemptOf res.1 = (attempt + fetchCount log)%nat
    ∧ (attemptOf res.1 ≤ maxRetries)%nat
    ∧ alternates log ∧ log ≠ []) as Hrec.
  { intros le w. destruct (IH (S attempt) le ltac:(lia)) as (Ha & Hb & Hc & Hd).
    destruct (attempt + 1 <? maxRetries)%nat eqn:E; simpl.
    - apply Nat.ltb_lt in E. repeat split; try lia; try done. apply Hd. lia.
    - apply Nat.ltb_ge in E. assert (fuel = 0%nat) as -> by lia. simpl in *.
      repeat split; try lia; done. }
  simpl. destruct (respond net url attempt) as [r|msg].
  - destruct (ok r).
    { simpl. repeat split; try lia; done. }
    destruct ((status r =? 429) && (attempt + 1 <? maxRetries)%nat) eqn:E429.
    { apply andb_true_iff in E429 as [_ Hlt].
      specialize (Hrec lastError (retryWait net attempt r)). rewrite Hlt in Hrec.
      destruct (fetchLoop net url maxRetries fuel (S attempt) lastError).
      simpl in *. intuition (first [lia | done]). }
    destruct ((400 <=? status r) && (status r <? 500)).
    { simpl. repeat split; try lia; done. }
    specialize (Hrec (Some (httpError (status r))) (2 ^ Z.of_nat attempt * 1000)).
    destruct (attempt + 1 <? maxRetries)%nat;
      destruct (fetchLoop net url maxRetries fuel (S attempt) _);
      simpl in *; intuition (first [lia | done]).
  - specialize (Hrec (Some msg) (2 ^ Z.of_nat attempt * 1000)).
    destruct (attempt + 1 <? maxRetries)%nat;
      destruct (fetchLoop net url maxRetries fuel (S attempt) _);
      simpl in *; intuition (first [lia | done]).
Qed.

(** X1.  The attempt count that [fetchWithRetry] reports is the number of
    fetches it made, and it never exceeds [maxRetries]. *)
Theorem attempt_count_is_fetch_count url maxRetries :
  let res := fetchWithRetry net url maxRetries in
  attemptOf res.1 = fetchCount res.2 ∧ (fetchCount res.2 ≤ maxRetries)%nat.
Proof.
  destruct (fetchLoop_shape url maxRetries maxRetries 0%nat None eq_refl)
    as (Ha & Hb & _). unfold fetchWithRetry. simpl in *. lia.
Qed.

(** X2.  [fetchWithRetry] sleeps only between two fetches: its trace starts
    with a fetch, fetches and sleeps take turns, and nothing follows the
    last fetch. *)
Theorem sleeps_only_between_fetches url maxRetries :
  alternates (fetchWithRetry net url maxRetries).2.
Proof.
  by destruct (fetchLoop_shape url maxRetries maxRetries 0%nat None eq_refl)
    as (_ & _ & Hc & _).
Qed.

Lemma fetchLoop_success url maxRetries response a :
  ∀ fuel attempt lastError log,
    fetchLoop net url maxRetries fuel attempt lastError = (FetchOk response a, log) →
    ok response = true
    ∧ (attempt < a ≤ attempt + fuel)%nat
    ∧ respond net url (a - 1) = Responded response.
Proof.
  induction fuel as [|fuel IH]; intros attempt lastError log; simpl; [done|].
  assert (∀ le l, fetchLoop net url maxRetries fuel (S attempt) le
                  = (FetchOk response a, l) →
          ok response = true ∧ (attempt < a ≤ attempt + S fuel)%nat
          ∧ respond net url (a - 1) = Responded response) as Hrec.
  { intros le l Hl. destruct (IH _ _ _ Hl) as (? & ? & ?).
    split; [done|]. split; [lia|done]. }
  assert (∀ (le : option string) (w : Z) res,
    (if (attempt + 1 <? maxRetries)%nat
     then let '(r0, l) := fetchLoop net url maxRetries fuel (S attempt) le in
          (r0, EvFetch url :: EvSleep w :: l)
     else let '(r0, l) := fetchLoop net url maxRetries fuel (S attempt) le in
          (r0, EvFetch url :: l)) = (FetchOk response a, res) →
    ok response = true ∧ (attempt < a ≤ attempt + S fuel)%nat
    ∧ respond net url (a - 1) = Responded response) as Hback.
  { intros le w res.
    destruct (attempt + 1 <? maxRetries)%nat;
      destruct (fetchLoop net url maxRetries fuel (S attempt) le) eqn:E;
      intros [= -> <-]; eapply Hrec; exact E. }
  destruct (respond net url attempt) as [r|msg] eqn:Er; [|apply Hback].
  destruct (ok r) eqn:Eok.
  { intros [= -> <- <-]. split; [done|]. split; [lia|].
    by replace (attempt + 1 - 1)%nat with attempt by lia. }
  destruct ((status r =? 429) && (attempt + 1 <? maxRetries)%nat).
  { destruct (fetchLoop net url maxRetries fuel (S attempt) lastError) eqn:E.
    intros [= -> <-]. eapply Hrec; exact E. }
  destruct ((400 <=? status r) && (status r <? 500)); [done|apply Hback].
Qed.

(** X3.  A call that reports success hands back a response with a status in
    200..299, the one the server gave at the attempt it reports, and that
    attempt lies within [1..maxRetries]. *)
Theorem success_is_ok_response url maxRetries response a log :
  fetchWithRetry net url maxRetries = (FetchOk response a, log) →
  200 ≤ status response ≤ 299
  ∧ (1 ≤ a ≤ maxRetries)%nat
  ∧ respond net url (a - 1) = Responded response.
Proof.
  intros Hres. apply fetchLoop_success in Hres as (Hok & Ha & Hresp).
  unfold ok in Hok. split; [lia|]. split; [lia|done].
Qed.





Lemma fetchLoop_transient url maxRetries :
  ∀ fuel attempt lastError,
    (attempt + fuel = maxRetries)%nat →
    (∀ k, (attempt ≤ k < maxRetries)%nat → transient (respond net url k)) →
    let res := fetchLoop net url maxRetries fuel attempt lastError in
    res.1 = FetchFailed
              (match fuel with
               | O => lastError
               | S _ => Some (errorOf (respond net url (maxRetries - 1)))
               end) maxRetries
    ∧ sleepsOf res.2 = (λ k, 2 ^ Z.of_nat k * 1000) <$> seq attempt (fuel - 1).
Proof.
  induction fuel as [|fuel IH]; intros attempt lastError Hsum Htr; [done|].
  assert (∀ le, le = Some (errorOf (respond net url attempt)) →
    let res :=
      if (attempt + 1 <? maxRetries)%nat
      then let '(r0, l) := fetchLoop net url maxRetries fuel (S attempt) le in
           (r0, EvFetch url :: EvSleep (2 ^ Z.of_nat attempt * 1000) :: l)
      else let '(r0, l) := fetchLoop net url maxRetries fuel (S attempt) le in
           (r0, EvFetch url :: l) in
    res.1 = FetchFailed (Some (errorOf (respond net url (maxRetries - 1)))) maxRetries
    ∧ sleepsOf res.2 = (λ k, 2 ^ Z.of_nat k * 1000) <$> seq attempt (S fuel - 1))
    as Hback.
  { intros le ->.
    destruct (IH (S attempt) (Some (errorOf (respond net url attempt)))) as [H1 H2];
      [lia|intros k Hk; apply Htr; lia|].
    destruct (attempt + 1 <? maxRetries)%nat eqn:E;
      destruct (fetchLoop net url maxRetries fuel (S attempt) _) as [r0 l];
      simpl in *.
    - apply Nat.ltb_lt in E. destruct fuel as [|fuel]; [lia|].
      split; [done|]. rewrite H2. simpl. by rewrite Nat.sub_0_r.
    - apply Nat.ltb_ge in E. assert (fuel = 0%nat) as -> by lia.
      split; [|done]. rewrite H1.
      by replace (maxRetries - 1)%nat with attempt by lia. }
  pose proof (Htr attempt ltac:(lia)) as Ht.
  cbn [fetchLoop]. destruct (respond net url attempt) as [r|msg]; simpl in Ht.
  - destruct Ht as [-> Hn4].
    replace (status r =? 429) with false by lia.
    replace ((400 <=? status r) && (status r <? 500)) with false by lia.
    cbn [andb]. by apply Hback.
  - by apply Hback.
Qed.

(** X5.  When every attempt is rejected or answered with a status that is
    neither a success nor a 4xx, the call makes [maxRetries] fetches, sleeps
    [1000 * 2^k] ms after attempt [k] for each attempt but the last, and
    fails with the error of the last attempt. *)
Theorem transient_failures_back_off url maxRetries :
  (0 < maxRetries)%nat →
  (∀ k, (k < maxRetries)%nat → transient (respond net url k)) →
  let res := fetchWithRetry net url maxRetries in
  res.1 = FetchFailed (Some (errorOf (respond net url (maxRetries - 1)))) maxRetries
  ∧ fetchCount res.2 = maxRetries
  ∧ sleepsOf res.2 = (λ k, 2 ^ Z.of_nat k * 1000) <$> seq 0 (maxRetries - 1).
Proof.
  intros Hpos Htr res.
  destruct (fetchLoop_transient url maxRetries maxRetries 0%nat None eq_refl)
    as [H1 H2]; [intros k Hk; apply Htr; lia|].
  destruct (fetchLoop_shape url maxRetries maxRetries 0%nat None eq_refl)
    as (Ha & _).
  fold (fetchWithRetry net url maxRetries) in H1, H2, Ha. fold res in H1, H2, Ha.
  destruct maxRetries as [|m]; [lia|].
  split; [done|]. split; [|done]. rewrite H1 in Ha. simpl in Ha. lia.
Qed.

End FetchTraceFacts.

(* ===================================================================== *)
(** * Feed parser and per-source fetch: further facts                     *)
(* ===================================================================== *)

Section FeedMoreFacts.
Context `{Platform}.
Variable net : Network.

Lemma pushEach_Forall (P : FeedItem → Prop) body :
  (∀ x it, body x = Ok (Some it) → P it) →
  ∀ l items out,
    Forall P items → pushEach body l items = Ok out → Forall P out.
Proof.
  intros Hbody. induction l as [|x l IH]; intros items out Hitems; simpl.
  - by intros [= <-].
  - destruct (body x) as [[it|]|] eqn:E; simpl; [| |done].
    + apply IH. apply Forall_app. split; [done|].
      apply Forall_singleton. by eapply Hbody.
    + by apply IH.
Qed.

(** A property of every item a loop body builds is a property of every item
    returned. *)
Lemma parseRssFeed_Forall (P : FeedItem → Prop) xmlText feedName :
  (∀ x it, rssItem feedName x = Ok (Some it) → P it) →
  (∀ x it, atomEntry feedName x = Ok (Some it) → P it) →
  (∀ x it, rdfItem feedName x = Ok (Some it) → P it) →
  (∀ m it, fallbackItem feedName m = Some it → P it) →
  (∀ m it, fallbackEntry feedName m = Some it → P it) →
  Forall P (parseRssFeed xmlText feedName).
Proof.
  intros Hrss Hatom Hrdf Hfi Hfe. unfold parseRssFeed.
  destruct (parseStructured xmlText feedName) as [out|] eqn:E.
  - revert E. unfold parseStructured.
    destruct (parseXML xmlText) as [parsed|]; simpl; [|done].
    set (rss := optMember (optMember (optMember parsed "rss") "channel") "item").
    set (atom := optMember (optMember parsed "feed") "entry").
    set (rdf := optMember (optMember parsed "rdf:RDF") "item").
    destruct (if truthy rss then _ else _) as [items1|] eqn:E1; simpl; [|done].
    assert (Forall P items1) as H1.
    { destruct (truthy rss); [|by injection E1 as <-].
      eapply pushEach_Forall; [apply Hrss|constructor|exact E1]. }
    destruct (if truthy atom then _ else _) as [items2|] eqn:E2; simpl; [|done].
    assert (Forall P items2) as H2.
    { destruct (truthy atom); [|by injection E2 as <-].
      eapply pushEach_Forall; [apply Hatom|exact H1|exact E2]. }
    destruct (truthy rdf); [|by intros [= <-]].
    intros E3. eapply pushEach_Forall; [apply Hrdf|exact H2|exact E3].
  - unfold parseRssFeedFallback.
    destruct (length _ =? 0)%nat; apply Forall_forall;
      intros it (m & _ & Hm)%list_elem_of_omap; eauto.
Qed.

(** X6.  Every item that [parseRssFeed] returns carries the feed name it was
    called with as its source. *)
Theorem parsed_items_carry_feed_name xmlText feedName :
  Forall (λ it, f_source it = feedName) (parseRssFeed xmlText feedName).
Proof.
  apply parseRssFeed_Forall.
  - intros x it. unfold rssItem.
    destruct (member x "title"); simpl; [|done].
    destruct (truthyStr _); [|done]. by intros [= <-].
  - intros x it. unfold atomEntry.
    destruct (member x "title"); simpl; [|done].
    destruct (atomLink x); simpl; [|done].
    destruct (truthyStr _); [|done]. by intros [= <-].
  - intros x it. unfold rdfItem.
    destruct (member x "title"); simpl; [|done].
    destruct (truthyStr _); [|done]. by intros [= <-].
  - intros m it. unfold fallbackItem.
    destruct (truthyStr _); [|done]. by intros [= <-].
  - intros m it. unfold fallbackEntry.
    destruct (truthyStr _); [|done]. by intros [= <-].
Qed.

Lemma extractTagFallback_clean xml tagName :
  hasTag (extractTagFallback xml tagName) = false.
Proof.
  unfold extractTagFallback. destruct (reMatch _ xml); [|done].
  apply stripTags_no_tag.
Qed.

Lemma orStr_clean a b : hasTag a = false → hasTag b = false → hasTag (orStr a b) = false.
Proof. unfold orStr. by destruct (truthyStr a). Qed.

(** X7.  In every item that [parseRssFeed] returns, from the structured
    branches or from the fallback, the title, the description and the
    publication date contain no tag: no ['<'] with a ['>'] behind it. *)
Theorem parsed_text_fields_tag_free xmlText feedName :
  Forall tagFree (parseRssFeed xmlText feedName).
Proof.
  apply parseRssFeed_Forall.
  - intros x it. unfold rssItem.
    destruct (member x "title"); simpl; [|done].
    destruct (truthyStr _); [|done]. intros [= <-].
    repeat split; simpl;
      auto using extractTextContent_no_tag, orStr_clean.
  - intros x it. unfold atomEntry.
    destruct (member x "title"); simpl; [|done].
    destruct (atomLink x); simpl; [|done].
    destruct (truthyStr _); [|done]. intros [= <-].
    repeat split; simpl;
      auto using extractTextContent_no_tag, orStr_clean.
  - intros x it. unfold rdfItem.
    destruct (member x "title"); simpl; [|done].
    destruct (truthyStr _); [|done]. intros [= <-].
    repeat split; simpl;
      auto using extractTextContent_no_tag, orStr_clean.
  - intros m it. unfold fallbackItem.
    destruct (truthyStr _); [|done]. intros [= <-].
    repeat split; simpl;
      auto using extractTagFallback_clean, orStr_clean.
  - intros m it. unfold fallbackEntry.
    destruct (truthyStr _); [|done]. intros [= <-].
    repeat split; simpl;
      auto using extractTagFallback_clean, orStr_clean.
Qed.

(** X8.  Widening the date range never drops an item: a date that is within
    the last [d] days is within the last [d'] days for every [d' >= d]. *)
Theorem wider_range_keeps now dateStr d d' :
  d ≤ d' →
  isWithinDateRange now dateStr d = true →
  isWithinDateRange now dateStr d' = true.
Proof.
  unfold isWithinDateRange, daysBefore, msPerDay. intros Hd.
  destruct (negb (truthyStr dateStr)); [done|].
  destruct (Date_parse dateStr); [|done]. lia.
Qed.

(** X9.  The health record of an RSS fetch is [healthy] exactly when the
    fetch succeeded, also when no item came out of the feed, and [failing]
    otherwise, never [degraded].  A healthy record counts the items
    returned, resets the failure counter and reports no error; a failing
    fetch returns no item and an error.  The retries recorded are at most
    3. *)
Theorem rss_health_matches_result now feed dateRangeDays :
  let res := fetchRssFeed net now feed dateRangeDays in
  let h := ff_health res in
  source_url h = feed_url feed
  ∧ match health_status h with
    | Some healthy =>
        success (fetchWithRetry net (feed_url feed) 3).1 = true
        ∧ ff_error res = None
        ∧ items_fetched h = Some (length (ff_items res))
        ∧ consecutive_failures h = Some 0
        ∧ last_success h = Some (last_check h)
    | Some failing =>
        success (fetchWithRetry net (feed_url feed) 3).1 = false
        ∧ ff_items res = []
        ∧ is_Some (ff_error res)
        ∧ items_fetched h = None
    | _ => False
    end
  ∧ ∃ a, retries_used h = Some a ∧ (a ≤ 3)%nat.
Proof.
  intros res h. unfold h, res, fetchRssFeed.
  destruct (fetchLoop_shape net (feed_url feed) 3 3 0%nat None eq_refl)
    as (_ & Hle & _).
  fold (fetchWithRetry net (feed_url feed) 3) in Hle.
  destruct (fetchWithRetry net (feed_url feed) 3) as [[response a|e a] log];
    simpl in *.
  - split; [done|]. split; [done|]. by exists a.
  - split; [done|]. split; [|by exists a]. repeat split; done.
Qed.

(** X10.  The health record of a scraped site is [failing] exactly when the
    scraper reports a non-empty error, [healthy] exactly when it reports no
    such error and at least one item, and [degraded] otherwise (also when
    the fetch failed with an empty error message); items are passed on only
    with a healthy record. *)
Theorem scrape_health_trichotomy config now :
  let result := scrapeWebsite net config now in
  let res := fetchScrapeSite net config now in
  match health_status (sf_health res) with
  | Some failing =>
      truthyOpt (sr_error result) = true
      ∧ sf_items res = [] ∧ is_Some (sf_error res)
  | Some healthy =>
      truthyOpt (sr_error result) = false ∧ sr_items result ≠ []
      ∧ sf_items res = sr_items result ∧ sf_error res = None
      ∧ items_fetched (sf_health res) = Some (length (sr_items result))
  | Some degraded =>
      truthyOpt (sr_error result) = false ∧ sr_items result = []
      ∧ sf_items res = [] ∧ sf_error res = None
      ∧ error_message (sf_health res) = Some "No items found"
  | None => False
  end.
Proof.
  intros result res. unfold res, fetchScrapeSite. fold result.
  destruct (truthyOpt (sr_error result)) eqn:E; simpl.
  - repeat split; done.
  - destruct (sr_items result) eqn:Ei; simpl; repeat split; done.
Qed.

End FeedMoreFacts.

(* ===================================================================== *)
(** * Site scraper: further facts                                         *)
(* ===================================================================== *)

Section ScrapeMoreFacts.
Context `{Platform}.
Variable net : Network.

Lemma foldl_invariant {S A} (I : S → Prop) (f : S → A → S) :
  (∀ st x, I st → I (f st x)) → ∀ l st, I st → I (foldl f st l).
Proof. intros Hf l. induction l; simpl; auto. Qed.

Lemma foldl_items_length {A} (f : ScrapeState → A → ScrapeState) :
  (∀ st x, (length (items (f st x)) ≤ S (length (items st)))%nat) →
  ∀ l st, (length (items (foldl f st l)) ≤ length (items st) + length l)%nat.
Proof.
  intros Hf l. induction l as [|x l IH]; intros st; simpl; [lia|].
  specialize (IH (f st x)). specialize (Hf st x). lia.
Qed.

Lemma regexOnlyStep_length config now st m :
  (length (items (regexOnlyStep config now st m)) ≤ S (length (items st)))%nat.
Proof.
  unfold regexOnlyStep. repeat (case_match; simpl); rewrite ?length_app; simpl; lia.
Qed.

Lemma fallbackStep_length config now st m :
  (length (items (fallbackStep config now st m)) ≤ S (length (items st)))%nat.
Proof.
  unfold fallbackStep. repeat (case_match; simpl); rewrite ?length_app; simpl; lia.
Qed.

Lemma regexOnlyStep_inv config now st m :
  regexInv st → regexInv (regexOnlyStep config now st m).
Proof.
  intros (Hgood & Hnd & Hmem). unfold regexOnlyStep.
  set (t := trim (collapseWhiteSpace (stripTags _))).
  destruct (negb (truthyStr t) || (String.length t <? 15)%nat
            || bool_decide (toLowerCase t ∈ seen st)) eqn:Eskip; [done|].
  apply orb_false_iff in Eskip as [[_ Hlen%Nat.ltb_ge]%orb_false_iff
                                     Hseen%bool_decide_eq_false].
  destruct (includes (toLowerCase t) "view all"
            || includes (toLowerCase t) "read more"
            || includes (toLowerCase t) "subscribe"
            || (300 <? String.length t)%nat) eqn:Estop.
  { split; [done|]. split; [done|]. simpl. intros it Hit.
    destruct (Hmem it Hit) as (t' & ? & ?). exists t'. set_solver. }
  repeat (apply orb_false_iff in Estop as [Estop ?]).
  split; [|split]; simpl.
  - apply Forall_app. split; [done|]. apply Forall_singleton.
    exists t. repeat split; try done. by apply Nat.ltb_ge.
  - rewrite fmap_app. apply NoDup_app. split; [done|]. split.
    + intros k (it' & -> & Hit')%list_elem_of_fmap Hk.
      apply list_elem_of_singleton in Hk. unfold lowerTitle in Hk.
      destruct (Hmem it' Hit') as (t' & Et' & Hin). rewrite Et' in Hk.
      simpl in Hk. congruence.
    + apply NoDup_singleton.
  - intros it' [Hit'| ->%list_elem_of_singleton]%elem_of_app.
    + destruct (Hmem it' Hit') as (t' & ? & ?). exists t'. set_solver.
    + exists t. set_solver.
Qed.

(** X11.  In regex-only mode the scraper looks at the first 20 matches and
    returns at most 20 items; each has a title of 15 to 300 characters whose
    lower-case form contains none of [view all], [read more], [subscribe],
    and no two items have the same lower-case title. *)
Theorem regex_only_mode_filtering config now response attempt pat :
  (fetchWithRetry net (c_url config) 3).1 = FetchOk response attempt →
  useRegexOnly config = true →
  titlePattern config = Some pat →
  let out := sr_items (scrapeWebsite net config now) in
  (length out ≤ 20)%nat
  ∧ Forall regexTitleOk out
  ∧ NoDup (lowerTitle <$> out).
Proof.
  intros Hfetch Hmode Hpat out. unfold out, scrapeWebsite.
  rewrite Hfetch, Hmode, Hpat. simpl.
  set (ms := take 20 (matchAll pat (body response))).
  set (start := mkScrapeState [] ∅).
  assert (regexInv (foldl (regexOnlyStep config now) start ms)) as (H1 & H2 & _).
  { apply foldl_invariant; [intros; by apply regexOnlyStep_inv|].
    split; [constructor|]. split; [constructor|]. intros it Hit. inversion Hit. }
  split; [|done].
  pose proof (foldl_items_length _ (regexOnlyStep_length config now) ms start) as Hl.
  unfold ms in Hl at 2. rewrite length_take in Hl.
  change (length (items start)) with 0%nat in Hl. lia.
Qed.

Lemma regexOnlyStep_ok config now st m :
  Forall (scrapedOk config) (items st) →
  Forall (scrapedOk config) (items (regexOnlyStep config now st m)).
Proof.
  intros Hgood. unfold regexOnlyStep.
  set (t := trim (collapseWhiteSpace (stripTags _))).
  destruct (negb (truthyStr t) || (String.length t <? 15)%nat
            || bool_decide (toLowerCase t ∈ seen st)) eqn:Eskip; [done|].
  apply orb_false_iff in Eskip as [[_ Hlen%Nat.ltb_ge]%orb_false_iff _].
  destruct (includes (toLowerCase t) "view all"
            || includes (toLowerCase t) "read more"
            || includes (toLowerCase t) "subscribe"
            || (300 <? String.length t)%nat) eqn:Estop; [done|].
  repeat (apply orb_false_iff in Estop as [Estop ?]).
  simpl. apply Forall_app. split; [done|]. apply Forall_singleton.
  split; [done|]. exists t. repeat split; try done; [lia|by apply Nat.ltb_ge].
Qed.

Lemma fallbackStep_ok config now st m :
  Forall (scrapedOk config) (items st) →
  Forall (scrapedOk config) (items (fallbackStep config now st m)).
Proof.
  intros Hgood. unfold fallbackStep.
  set (t := trim (stripTags _)).
  destruct (negb (truthyStr t) || (String.length t <? 10)%nat
            || bool_decide (t ∈ seen st)) eqn:Eskip; [done|].
  apply orb_false_iff in Eskip as [[_ Hlen%Nat.ltb_ge]%orb_false_iff _].
  destruct (includes (toLowerCase t) "view all"
            || includes (toLowerCase t) "read more"
            || includes (toLowerCase t) "subscribe"
            || (300 <? String.length t)%nat) eqn:Estop; [done|].
  repeat (apply orb_false_iff in Estop as [Estop ?]).
  simpl. apply Forall_app. split; [done|]. apply Forall_singleton.
  split; [done|]. exists t. repeat split; try done. by apply Nat.ltb_ge.
Qed.

Lemma domItem_source config now el t l it :
  domItem config now el t l = Ok it → source it = c_name config ∧ title it = Some t.
Proof.
  unfold domItem.
  destruct (absoluteLink config l); simpl; [|done].
  destruct (pubDateOf config now el); simpl; [|done].
  destruct (if truthyOpt (descriptionSelector config) then _ else _); simpl; [|done].
  destruct (if truthyOpt (authorSelector config) then _ else _); simpl; [|done].
  by intros [= <-].
Qed.

Lemma domStep_ok config now el st :
  Forall (scrapedOk config) (items st) →
  Forall (scrapedOk config) (items (stateOf (domStep config now el st)))
  ∧ (length (items (stateOf (domStep config now el st))) ≤ S (length (items st)))%nat.
Proof.
  intros Hgood. unfold domStep.
  destruct (titleAndAnchor config el) as [[[anchor|] raw]|]; simpl; [|auto..].
  set (t := trim (collapseWhiteSpace raw)).
  destruct (negb (truthyStr t) || (String.length t <? 10)%nat
            || bool_decide (toLowerCase t ∈ seen st)) eqn:Eskip; simpl; [auto|].
  destruct (includes (toLowerCase t) "view all"
            || includes (toLowerCase t) "read more"
            || includes (toLowerCase t) "subscribe"
            || includes (toLowerCase t) "sign up"
            || (300 <? String.length t)%nat) eqn:Estop; simpl; [auto|].
  destruct (domItem config now el t _) as [it|] eqn:Eit; simpl; [|auto].
  apply domItem_source in Eit as [Hsrc Htitle].
  apply orb_false_iff in Eskip as [[_ Hlen%Nat.ltb_ge]%orb_false_iff _].
  repeat (apply orb_false_iff in Estop as [Estop ?]).
  split; [|rewrite length_app; simpl; lia].
  apply Forall_app. split; [done|]. apply Forall_singleton.
  split; [done|]. exists t. repeat split; try done. by apply Nat.ltb_ge.
Qed.

Lemma domLoop_ok config now els :
  ∀ st, Forall (scrapedOk config) (items st) →
  Forall (scrapedOk config) (items (stateOf (domLoop config now els st)))
  ∧ (length (items (stateOf (domLoop config now els st)))
     ≤ length els + length (items st))%nat.
Proof.
  induction els as [|el els IH]; intros st Hgood; simpl; [auto|].
  destruct (domStep_ok config now el st Hgood) as [Hgood' Hlen].
  destruct (domStep config now el st) as [st'|st']; simpl in *.
  - destruct (IH st' Hgood') as [? ?]. split; [done|lia].
  - split; [done|lia].
Qed.

Lemma catchFallback_ok config now html st :
  Forall (scrapedOk config) (items st) →
  Forall (scrapedOk config) (items (catchFallback config now html st))
  ∧ (length (items (catchFallback config now html st)) ≤ length (items st) + 15)%nat.
Proof.
  intros Hgood. unfold catchFallback. destruct (titlePattern config) as [pat|].
  - split.
    + apply (foldl_invariant (λ st, Forall (scrapedOk config) (items st)));
        [intros; by apply fallbackStep_ok|done].
    + pose proof (foldl_items_length _ (fallbackStep_length config now)
                    (take 15 (matchAll pat html)) st) as Hl.
      rewrite length_take in Hl. lia.
  - split; [done|lia].
Qed.

(** X12.  Whatever path the scraper takes (regex-only, DOM, the fallback
    after a throw), every item it returns carries the configured source
    name and a title of 10 to 300 characters whose lower-case form contains
    none of [view all], [read more], [subscribe]; it returns at most 35
    items (20 from the main loop, 15 from the fallback). *)
Theorem scraped_items_ok config now :
  let out := sr_items (scrapeWebsite net config now) in
  Forall (scrapedOk config) out ∧ (length out ≤ 35)%nat.
Proof.
  intros out. unfold out, scrapeWebsite.
  set (start := mkScrapeState [] ∅).
  assert (Forall (scrapedOk config) (items start)) as Hstart by constructor.
  assert (∀ html st, Forall (scrapedOk config) (items st) →
            (length (items st) ≤ 20)%nat →
            Forall (scrapedOk config) (items (catchFallback config now html st))
            ∧ (length (items (catchFallback config now html st)) ≤ 35)%nat) as Hcatch.
  { intros html st Hst Hlen. destruct (catchFallback_ok config now html st Hst).
    split; [done|lia]. }
  assert (∀ els,
    Forall (scrapedOk config)
      (items (stateOf (domLoop config now (take 20 els) start)))
    ∧ (length (items (stateOf (domLoop config now (take 20 els) start))) ≤ 20)%nat)
    as Hdom.
  { intros els. destruct (domLoop_ok config now (take 20 els) start Hstart)
      as [? Hl]. split; [done|]. rewrite length_take in Hl.
    change (length (items start)) with 0%nat in Hl. lia. }
  assert (∀ pat html,
    Forall (scrapedOk config)
      (items (foldl (regexOnlyStep config now) start (take 20 (matchAll pat html))))
    ∧ (length (items (foldl (regexOnlyStep config now) start
                        (take 20 (matchAll pat html)))) ≤ 35)%nat) as Hre.
  { intros pat html. split.
    - apply (foldl_invariant (λ st, Forall (scrapedOk config) (items st)));
        [intros; by apply regexOnlyStep_ok|done].
    - pose proof (foldl_items_length _ (regexOnlyStep_length config now)
                    (take 20 (matchAll pat html)) start) as Hl.
      rewrite length_take in Hl.
      change (length (items start)) with 0%nat in Hl. lia. }
  destruct (fetchWithRetry net (c_url config) 3).1 as [response a|e a]; simpl;
    [|split; [constructor|lia]].
  destruct (useRegexOnly config), (titlePattern config) as [pat|];
    try apply Hre;
    (destruct (parseFromString (body response)) as [[doc|]|]; simpl;
     [ destruct (querySelectorAll doc (articleSelectors config)) as [els|]; simpl;
       [ specialize (Hdom els);
         destruct (domLoop config now (take 20 els) start) as [st|st];
         simpl in *; destruct Hdom as [Hd1 Hd2];
         [ split; [done|lia] | by apply Hcatch ]
       | apply Hcatch; [done|simpl; lia] ]
     | split; [constructor|simpl; lia]
     | apply Hcatch; [done|simpl; lia] ]).
Qed.

End ScrapeMoreFacts.

(* ===================================================================== *)
(** * Content enricher: further facts                                     *)
(* ===================================================================== *)

Section EnrichMoreFacts.
Context `{Platform}.
Variable net : Network.

Lemma length_substring_0 n s : (String.length (String.substring 0 n s) ≤ n)%nat.
Proof.
  revert s; induction n as [|n IH]; intros [|c s]; simpl; try lia.
  specialize (IH s). lia.
Qed.

Lemma string_length_app a b :
  String.length (a +:+ b) = (String.length a + String.length b)%nat.
Proof. induction a as [|c a IH]; simpl; [done|by rewrite IH]. Qed.

(** What one phase may do to an item. *)
Lemma enrichDate_spec doc item item' :
  enrichDate doc item = Ok item' →
  item' = item ∨ ∃ d, truthyOpt d = true ∧ item' = setPubDate item d.
Proof.
  unfold enrichDate. destruct (firstTruthy _) as [d|]; simpl; [|done].
  destruct (truthyOpt d) eqn:E; intros [= <-]; [right; by exists d|by left].
Qed.

Lemma enrichAuthor_spec doc item item' :
  enrichAuthor doc item = Ok item' →
  item' = item
  ∨ truthyOpt (author item) = false
    ∧ ∃ a, truthyOpt a = true ∧ item' = setAuthor item a.
Proof.
  unfold enrichAuthor. destruct (truthyOpt (author item)) eqn:Ea.
  { intros [= <-]. by left. }
  destruct (firstTruthy _) as [a|]; simpl; [|done].
  destruct (truthyOpt a) eqn:E; intros [= <-]; [right|by left].
  split; [done|]. by exists a.
Qed.

Lemma enrichContent_spec doc item item' :
  enrichContent doc item = Ok item' →
  item' = item
  ∨ ∃ c, (String.length c ≤ 8000)%nat
      ∧ (item' = setContent item (description item) (Some c)
         ∨ weakDescription item
           ∧ item' = setContent item
                       (Some (String.substring 0 300 c +:+ "...")) (Some c)).
Proof.
  unfold enrichContent.
  destruct (firstSubstantial doc contentSelectors) as [c0|]; simpl; [|done].
  destruct (if truthyStr c0 then _ else _) as [content|]; simpl; [|done].
  destruct (truthyStr content); intros [= <-]; [|by left].
  right. eexists. split; [apply length_substring_0|].
  destruct (negb (truthyOpt (description item))
            || (String.length (orEmpty (description item)) <? 150)%nat) eqn:E.
  - right. split; [|done]. unfold weakDescription.
    apply orb_true_iff in E as [E%negb_true_iff|E%Nat.ltb_lt]; auto.
  - by left.
Qed.

(** What the enricher may do to an item, for the fields it can touch. *)
Lemma enrichArticleContent_changes item :
  let out := (enrichArticleContent net item).1 in
  title out = title item ∧ link out = link item ∧ source out = source item
  ∧ (pubDate out = pubDate item ∨ truthyOpt (pubDate out) = true)
  ∧ (author out = author item
     ∨ truthyOpt (author item) = false ∧ truthyOpt (author out) = true)
  ∧ (fullContent out = fullContent item ∧ description out = description item
     ∨ ∃ c, (String.length c ≤ 8000)%nat ∧ fullContent out = Some c
         ∧ (description out = description item
            ∨ weakDescription item
              ∧ description out = Some (String.substring 0 300 c +:+ "..."))).
Proof.
  intros out. unfold out, enrichArticleContent.
  destruct (negb (truthyOpt (link item)) || _); [simpl; tauto|].
  destruct (fetchWithRetry net (orEmpty (link item)) 3) as [[response a|e a] log];
    simpl; [|tauto].
  destruct (parseFromString (body response)) as [[doc|]|]; simpl; try tauto.
  unfold enrichFrom.
  destruct (enrichDate doc item) as [item1|] eqn:E1; [|simpl; tauto].
  assert (title item1 = title item ∧ link item1 = link item
          ∧ source item1 = source item ∧ author item1 = author item
          ∧ description item1 = description item
          ∧ fullContent item1 = fullContent item
          ∧ (pubDate item1 = pubDate item ∨ truthyOpt (pubDate item1) = true))
    as (T1 & L1 & S1 & A1 & D1 & F1 & P1).
  { apply enrichDate_spec in E1 as [->|(d & Hd & ->)]; simpl; tauto. }
  destruct (enrichAuthor doc item1) as [item2|] eqn:E2;
    [|simpl; rewrite T1, L1, S1, A1, D1, F1; tauto].
  assert (title item2 = title item ∧ link item2 = link item
          ∧ source item2 = source item
          ∧ description item2 = description item
          ∧ fullContent item2 = fullContent item
          ∧ pubDate item2 = pubDate item1
          ∧ (author item2 = author item
             ∨ truthyOpt (author item) = false ∧ truthyOpt (author item2) = true))
    as (T2 & L2 & S2 & D2 & F2 & P2 & A2).
  { apply enrichAuthor_spec in E2 as [->|(Hno & a0 & Ha & ->)]; simpl;
      rewrite ?T1, ?L1, ?S1, ?D1, ?F1; [tauto|].
    rewrite A1 in Hno. tauto. }
  rewrite <- P2 in P1.
  destruct (enrichContent doc item2) as [item3|] eqn:E3;
    [|simpl; rewrite T2, L2, S2, D2, F2; tauto].
  apply enrichContent_spec in E3 as [->|(c & Hc & [->|[Hweak ->]])]; simpl;
    rewrite ?T2, ?L2, ?S2, ?D2, ?F2.
  - tauto.
  - repeat split; try done. right. exists c. tauto.
  - repeat split; try done. right. exists c. split; [done|]. split; [done|].
    right. split; [|done].
    unfold weakDescription in *. by rewrite D2 in Hweak.
Qed.

(** X13.  Enrichment never changes the title, the link or the source of an
    item, whatever the network and the page do; it never overwrites an
    author that is already known and never replaces the publication date by
    an empty one: the author changes only from absent or empty to a
    non-empty one, the date only to a non-empty one. *)
Theorem enrich_keeps_identity item :
  let out := (enrichArticleContent net item).1 in
  title out = title item ∧ link out = link item ∧ source out = source item
  ∧ (author out = author item
     ∨ truthyOpt (author item) = false ∧ truthyOpt (author out) = true)
  ∧ (pubDate out = pubDate item ∨ truthyOpt (pubDate out) = true).
Proof.
  intros out. pose proof (enrichArticleContent_changes item) as Hc. simpl in Hc.
  unfold out. tauto.
Qed.

(** X14.  When enrichment sets the full content, it is at most 8000
    characters long; and the description is replaced only when it was weak
    (absent, empty or shorter than 150 characters), by the first 300
    characters of that content followed by three dots (at most 303
    characters). *)
Theorem enrich_content_bounds item :
  let out := (enrichArticleContent net item).1 in
  (fullContent out = fullContent item ∧ description out = description item)
  ∨ ∃ c, (String.length c ≤ 8000)%nat ∧ fullContent out = Some c
      ∧ (description out = description item
         ∨ ∃ d, weakDescription item
             ∧ description out = Some d
             ∧ d = String.substring 0 300 c +:+ "..."
             ∧ (String.length d ≤ 303)%nat).
Proof.
  intros out. pose proof (enrichArticleContent_changes item) as Hc. simpl in Hc.
  fold out in Hc. destruct Hc as (_ & _ & _ & _ & _ & [?|(c & Hlen & Hf & Hd)]);
    [by left|].
  right. exists c. split; [done|]. split; [done|].
  destruct Hd as [?|[Hweak Hd]]; [by left|]. right. eexists.
  split; [done|]. split; [done|]. split; [done|].
  rewrite string_length_app. pose proof (length_substring_0 300 c). simpl. lia.
Qed.

End EnrichMoreFacts.

(* ===================================================================== *)
(** * Deduplicator: further facts                                         *)
(* ===================================================================== *)

Section DedupMoreFacts.

Implicit Types (S U : gset (option string)) (l items : list Item) (x y : Item).

(** X15.  When the query of the store fails, the deduplicator falls back to
    the batch walk alone: it returns the batch without its internal
    duplicates and consults no history.  That is also what it returns
    against an empty store, and whatever a working store holds, its answer
    is a sub-sequence of the one it gives when the query fails: a store
    failure loses no item, it only lets duplicates of stored records
    through. *)
Theorem dedupe_survives_store_failure now items up recs :
  deduplicateItems now items (mkStore false recs) = batchDedupe items
  ∧ deduplicateItems now items (mkStore true []) = batchDedupe items
  ∧ deduplicateItems now items (mkStore up recs)
    `sublist_of` deduplicateItems now items (mkStore false recs).
Proof.
  assert (∀ recs', deduplicateItems now items (mkStore false recs')
                   = batchDedupe items) as Hfail.
  { intros recs'. unfold deduplicateItems, RegulatoryUpdate_filter_all. simpl.
    destruct (length (batchDedupe items) =? 0)%nat eqn:E; [|done].
    apply Nat.eqb_eq in E. by destruct (batchDedupe items). }
  split; [apply Hfail|]. split.
  - unfold deduplicateItems, RegulatoryUpdate_filter_all. simpl.
    destruct (length (batchDedupe items) =? 0)%nat eqn:E.
    { apply Nat.eqb_eq in E. by destruct (batchDedupe items). }
    clear E Hfail. induction (batchDedupe items) as [|a l IH]; [done|].
    rewrite filter_cons, IH. unfold notInHistory, keySet. simpl.
    rewrite !bool_decide_eq_false_2 by set_solver.
    by rewrite andb_false_r, decide_True.
  - rewrite Hfail. apply deduplicateItems_sublist.
Qed.

(** A list whose keys are fresh and pairwise distinct passes the walk
    whole. *)
Lemma batchFilter_fixpoint S U l :
  (∀ y, y ∈ l → (titleKey y ∉ S) ∧ (nonEmptyKey (urlKey y) → urlKey y ∉ U)) →
  NoDup (titleKey <$> l) →
  NoDup (filter nonEmptyKey (urlKey <$> l)) →
  batchFilter S U l = l.
Proof.
  revert S U; induction l as [|a l IH]; intros S U Hfresh Hnt Hnu; [done|].
  simpl. destruct (Hfresh a ltac:(left)) as [Ht Hu].
  rewrite bool_decide_eq_false_2 by done.
  rewrite fmap_cons in Hnt, Hnu. apply NoDup_cons in Hnt as [Hta Hnt].
  rewrite filter_cons in Hnu.
  destruct (decide (nonEmptyKey (urlKey a))) as [Hne|Hne]; unfold nonEmptyKey in Hne.
  - apply NoDup_cons in Hnu as [Hua Hnu]. rewrite Hne.
    rewrite bool_decide_eq_false_2 by (by apply Hu). simpl. f_equal.
    apply IH; [|done|done].
    intros y Hy. destruct (Hfresh y ltac:(by right)) as [Hty Huy]. split.
    + intros [Heq%elem_of_singleton|?]%elem_of_union; [|done].
      apply Hta. rewrite <- Heq. by apply list_elem_of_fmap_2.
    + intros Hney [Heq%elem_of_singleton|?]%elem_of_union; [|by apply Huy].
      apply Hua. apply list_elem_of_filter. split; [done|].
      rewrite <- Heq. by apply list_elem_of_fmap_2.
  - apply not_true_is_false in Hne. rewrite Hne.
    simpl. f_equal. apply IH; [|done|done].
    intros y Hy. destruct (Hfresh y ltac:(by right)) as [Hty Huy]. split; [|done].
    intros [Heq%elem_of_singleton|?]%elem_of_union; [|done].
    apply Hta. rewrite <- Heq. by apply list_elem_of_fmap_2.
Qed.

Lemma deduplicateItems_keys now items st :
  NoDup (titleKey <$> deduplicateItems now items st)
  ∧ NoDup (filter nonEmptyKey (urlKey <$> deduplicateItems now items st)).
Proof.
  pose proof (deduplicateItems_sublist now items st) as Hsub.
  destruct (batchFilter_fresh ∅ ∅ items) as (_ & Hnt & Hnu).
  fold (batchDedupe items) in Hnt, Hnu. split.
  - eapply sublist_NoDup; [exact Hnt|]. by apply fmap_sublist.
  - eapply sublist_NoDup; [exact Hnu|].
    by apply filter_sublist_mono, fmap_sublist.
Qed.

Lemma filter_filter_same {A} (P : A → Prop) `{∀ a, Decision (P a)} (k : list A) :
  filter P (filter P k) = filter P k.
Proof.
  induction k as [|a k IH]; [done|]. rewrite filter_cons.
  destruct (decide (P a)); [|done]. rewrite filter_cons, decide_True by done.
  by rewrite IH.
Qed.

(** X16.  Deduplicating twice changes nothing: run again on its own output,
    against the same store, the deduplicator returns that output. *)
Theorem dedupe_idempotent now items st :
  deduplicateItems now (deduplicateItems now items st) st =
  deduplicateItems now items st.
Proof.
  destruct (deduplicateItems_keys now items st) as [Hnt Hnu].
  assert (batchDedupe (deduplicateItems now items st)
          = deduplicateItems now items st) as Hfix.
  { apply batchFilter_fixpoint; [|done|done]. intros y _. set_solver. }
  unfold deduplicateItems at 1. rewrite Hfix.
  destruct (length (deduplicateItems now items st) =? 0)%nat eqn:E.
  { apply Nat.eqb_eq in E. by destruct (deduplicateItems now items st). }
  destruct (RegulatoryUpdate_filter_all st) as [recs|msg] eqn:Est; [|done].
  unfold deduplicateItems in *. rewrite Est in *.
  destruct (length (batchDedupe items) =? 0)%nat; [done|].
  apply filter_filter_same.
Qed.

(** Every walked item is kept, or was blocked by a key of the starting sets
    or by a kept item. *)
Lemma batchFilter_represented S U l x :
  x ∈ l →
  titleKey x ∈ S ∨ (nonEmptyKey (urlKey x) ∧ urlKey x ∈ U)
  ∨ ∃ y, y ∈ batchFilter S U l ∧ (y = x ∨ sameKey y x).
Proof.
  revert S U; induction l as [|a l IH]; intros S U; [by intros ?%elem_of_nil|].
  intros Hx. simpl.
  destruct (bool_decide (titleKey a ∈ S)) eqn:Ht.
  { apply bool_decide_eq_true in Ht.
    apply elem_of_cons in Hx as [->|Hx]; [by left|by apply IH]. }
  destruct (truthyOpt (urlKey a) && bool_decide (urlKey a ∈ U)) eqn:Hu.
  { apply andb_true_iff in Hu as [Hu1 Hu2%bool_decide_eq_true].
    apply elem_of_cons in Hx as [->|Hx]; [by right; left|by apply IH]. }
  apply elem_of_cons in Hx as [->|Hx].
  { right. right. exists a. split; [by left|by left]. }
  destruct (IH ({[titleKey a]} ∪ S)
              (if truthyOpt (urlKey a) then {[urlKey a]} ∪ U else U) Hx)
    as [Hin|[[Hne Hin]|(y & Hy & Hyx)]].
  - apply elem_of_union in Hin as [Heq%elem_of_singleton|?]; [|by left].
    right. right. exists a. split; [by left|]. right. by left.
  - destruct (truthyOpt (urlKey a)); [|by right; left].
    apply elem_of_union in Hin as [Heq%elem_of_singleton|?]; [|by right; left].
    right. right. exists a. split; [by left|]. right. by right.
  - right. right. exists y. split; [by right|done].
Qed.

(** X17.  The batch walk drops nothing without a stand-in: every item of
    the batch is kept, or a kept item has its normalized title or its
    normalized non-empty URL. *)
Theorem dropped_items_are_represented items x :
  x ∈ items →
  ∃ y, y ∈ batchDedupe items ∧ (y = x ∨ sameKey y x).
Proof.
  intros Hx. unfold batchDedupe.
  destruct (batchFilter_represented ∅ ∅ items x Hx) as [?|[[_ ?]|?]];
    [set_solver|set_solver|done].
Qed.

End DedupMoreFacts.

(* ===================================================================== *)
(** * Source health: further facts                                        *)
(* ===================================================================== *)

Section HealthMoreFacts.



End HealthMoreFacts.

(* ===================================================================== *)
(** * Scan orchestrator: facts                                            *)
(* ===================================================================== *)

Section SelectionFacts.

Lemma lookupStatic_truthy id name :
  lookupStatic id staticSourceIdMap = Some name → truthyStr name = true.
Proof.
  assert (Forall (λ p, truthyStr p.2 = true) staticSourceIdMap) as Hall
    by (repeat constructor).
  induction Hall as [|[k v] m Hv Hm IH]; simpl; [done|].
  destruct (String.eqb id k); [by intros [= <-]|done].
Qed.

Lemma elem_of_selectedStaticNames ids name :
  name ∈ selectedStaticNames ids ↔
  ∃ id, id ∈ ids ∧ lookupStatic id staticSourceIdMap = Some name.
Proof.
  unfold selectedStaticNames. rewrite elem_of_list_to_set, list_elem_of_omap.
  split; intros (id & Hid & Hl); exists id; (split; [done|]).
  - destruct (lookupStatic id staticSourceIdMap) as [n|] eqn:E; [|done].
    destruct (truthyStr n); by inversion Hl.
  - rewrite Hl. by rewrite (lookupStatic_truthy _ _ Hl).
Qed.

Lemma undefined_not_selected ids : None ∉ selectedSet ids.
Proof.
  unfold selectedSet. rewrite elem_of_list_to_set.
  by intros (? & ? & ?)%list_elem_of_fmap.
Qed.

(** X20.  With a non-empty selection, a source is scanned exactly when its
    name is the name that the static id table gives for one of the selected
    ids.  No source carries an id of its own, so a custom source is never
    selected through its id: it is scanned only when its name is that of a
    selected static source. *)
Theorem selection_goes_by_static_name ids :
  ids ≠ [] →
  (∀ feeds feed,
     feed ∈ selectRssFeeds (Some ids) feeds ↔
     feed ∈ feeds
     ∧ ∃ id, id ∈ ids ∧ lookupStatic id staticSourceIdMap = Some (feed_name feed))
  ∧ (∀ configs config,
     config ∈ selectScrapeConfigs (Some ids) configs ↔
     config ∈ configs
     ∧ ∃ id, id ∈ ids ∧ lookupStatic id staticSourceIdMap = Some (c_name config)).
Proof.
  intros Hne. unfold selectRssFeeds, selectScrapeConfigs.
  destruct ids as [|i ids]; [done|].
  replace (0 <? length (i :: ids))%nat with true by done.
  pose proof (undefined_not_selected (i :: ids)) as Hundef.
  split; intros l x; rewrite list_elem_of_filter, <- elem_of_selectedStaticNames;
    unfold feed_id, config_id; tauto.
Qed.

(** X21.  No configuration that a scan can build uses the regex-only mode:
    the static table never sets the flag and phase 0 does not copy one, so
    the regex-only branch of the scraper is never taken in a scan.  A custom
    scrape source has neither a title pattern nor a base URL. *)
Theorem scan_never_regex_only query :
  Forall (λ config, useRegexOnly config = false) (allScrapeConfigs query)
  ∧ Forall (λ config, titlePattern config = None ∧ baseUrl config = None)
      (dynamicScrape (customOrNone query)).
Proof.
  assert (Forall (λ config, useRegexOnly config = false
                            ∧ titlePattern config = None ∧ baseUrl config = None)
            (dynamicScrape (customOrNone query))) as Hdyn.
  { apply Forall_forall. intros config (src & _ & Hsrc)%list_elem_of_omap.
    destruct (String.eqb (cs_type src) "rss"); [done|].
    destruct (String.eqb (cs_type src) "scrape"); [|done].
    by injection Hsrc as <-. }
  split.
  - unfold allScrapeConfigs. apply Forall_app. split.
    + repeat constructor.
    + eapply Forall_impl; [exact Hdyn|]. by intros ? (? & _).
  - eapply Forall_impl; [exact Hdyn|]. by intros ? (_ & ? & ?).
Qed.

(** Whatever the request body holds, the date range used by a scan
    lies in 1..60 days (14 when the body is missing or invalid, or the
    value is absent, zero or out of range), and the selection is absent or
    non-empty. *)
Lemma request_parameters_valid body :
  1 ≤ requestDays body ≤ 60
  ∧ (requestDays body = 14
     ∨ ∃ b, body = Ok b ∧ body_dateRangeDays b = Some (requestDays body))
  ∧ match requestSelection body with
    | Some ids => ids ≠ []
    | None => True
    end.
Proof.
  unfold requestDays, requestSelection.
  destruct body as [[days sel]|]; simpl; [|repeat split; [lia|lia|by left]].
  split; [|split].
  - destruct days as [d|]; [|lia].
    destruct (negb (d =? 0) && (1 <=? d) && (d <=? 60)) eqn:E; lia.
  - destruct days as [d|]; [|by left].
    destruct (negb (d =? 0) && (1 <=? d) && (d <=? 60)); [right|by left].
    by eexists.
  - destruct sel as [[|i ids]|]; done.
Qed.

End SelectionFacts.

Section ChunkFacts.
Context {A : Type}.
Implicit Types (arr : list A) (size : nat).

Lemma ceilDiv_covers n size : (0 < size → n ≤ ceilDiv n size * size)%nat.
Proof.
  intros Hs. unfold ceilDiv.
  pose proof (Nat.div_mod_eq n size) as Hdm.
  pose proof (Nat.mod_upper_bound n size ltac:(lia)) as Hub.
  destruct (n mod size =? 0)%nat eqn:E.
  - apply Nat.eqb_eq in E. nia.
  - nia.
Qed.

Lemma ceilDiv_tight n size i :
  (0 < size → i < ceilDiv n size → i * size < n)%nat.
Proof.
  intros Hs. unfold ceilDiv.
  pose proof (Nat.div_mod_eq n size) as Hdm.
  destruct (n mod size =? 0)%nat eqn:E.
  - apply Nat.eqb_eq in E. nia.
  - apply Nat.eqb_neq in E. nia.
Qed.

Lemma concat_slices arr size k :
  concat ((λ i, slice (i * size) (i * size + size) arr) <$> seq 0 k)
  = take (k * size) arr.
Proof.
  induction k as [|k IH]; [done|].
  rewrite seq_S, fmap_app, concat_app, IH. simpl. rewrite app_nil_r.
  unfold slice. replace (k * size + size - k * size)%nat with size by lia.
  rewrite take_take_drop. f_equal. lia.
Qed.

(** X22.  For a positive size, [chunkArray] cuts the array into
    [ceil(length / size)] chunks whose concatenation is the array: every
    element lands in exactly one chunk, in order, and every chunk holds
    between 1 and [size] elements. *)
Theorem chunkArray_partitions arr size :
  (0 < size)%nat →
  concat (chunkArray arr size) = arr
  ∧ length (chunkArray arr size) = ceilDiv (length arr) size
  ∧ Forall (λ chunk, (1 ≤ length chunk ≤ size)%nat) (chunkArray arr size).
Proof.
  intros Hs. unfold chunkArray. split; [|split].
  - rewrite concat_slices. apply take_ge. by apply ceilDiv_covers.
  - by rewrite length_fmap, length_seq.
  - apply Forall_forall. intros chunk (i & -> & Hi)%list_elem_of_fmap.
    apply elem_of_seq in Hi as [_ Hi]. simpl in Hi.
    pose proof (ceilDiv_tight (length arr) size i Hs Hi).
    unfold slice. rewrite length_take, length_drop. lia.
Qed.

End ChunkFacts.

Section RuleFacts.

Implicit Types (rules : list RelevanceRule) (items : list Item).

Lemma firstMatch_None rules item :
  firstMatch rules item = None ↔ ∀ rule, rule ∈ rules → ruleHits rule item = false.
Proof.
  unfold firstMatch, ruleHits.
  set (f := ruleMatches _ _ _). clearbody f.
  induction rules as [|r rules IH]; simpl.
  - split; [intros _ rule Hr; inversion Hr|done].
  - destruct (f r) eqn:E.
    + split; [done|]. intros Hall. specialize (Hall r ltac:(left)). congruence.
    + rewrite IH. split.
      * intros Hall rule [->|Hr]%elem_of_cons; auto.
      * intros Hall rule Hr. apply Hall. by right.
Qed.


Lemma applyRules_kept rules items :
  (applyRules rules items).1 = filter (λ item, firstMatch rules item = None) items.
Proof.
  induction items as [|item items IH]; [done|]. simpl.
  destruct (applyRules rules items) as [kept sent]. simpl in IH.
  rewrite filter_cons.
  destruct (decide (firstMatch rules item = None)) as [E|E].
  - rewrite E. simpl. by f_equal.
  - destruct (firstMatch rules item); [done|by destruct E].
Qed.


(** X23.  An item survives the rule pre-filter exactly when no rule matches
    it; the items kept stay in order.  A rule matches only if it has a
    non-empty pattern and a type starting with [exclude]. *)
Theorem rule_filter_keeps_unmatched rules items x :
  (x ∈ (filterByRules rules items).1 ↔
   x ∈ items ∧ ∀ rule, rule ∈ rules → ruleHits rule x = false)
  ∧ (filterByRules rules items).1 `sublist_of` items.
Proof.
  unfold filterByRules. destruct rules as [|r rules].
  { simpl. split; [|done]. split; [|tauto]. intros Hx. split; [done|].
    intros rule Hr. inversion Hr. }
  replace (0 <? length (r :: rules))%nat with true by done.
  rewrite applyRules_kept. split; [|apply sublist_filter].
  rewrite list_elem_of_filter, firstMatch_None. tauto.
Qed.


Lemma ruleMatches_other_type t d s rule :
  rule_type rule ∉ excludeTypes → ruleMatches t d s rule = false.
Proof.
  intros Hty. unfold ruleMatches.
  destruct (negb (truthyOpt _)); [done|].
  destruct (negb (startsWith _ _)); [done|].
  repeat (destruct (String.eqb (rule_type rule) _) eqn:E;
          [apply String.eqb_eq in E; destruct Hty; rewrite E;
           unfold excludeTypes; set_solver|clear E]).
  done.
Qed.

(** X25.  Rules of any other type than the four exclusion types (the
    inclusion rules among them) filter nothing: with only such rules active
    the pre-filter returns the items as they are and sends no update. *)
Theorem inclusion_rules_filter_nothing rules items :
  Forall (λ rule, rule_type rule ∉ excludeTypes) rules →
  filterByRules rules items = (items, []).
Proof.
  intros Hall. unfold filterByRules.
  destruct (0 <? length rules)%nat; [|done].
  induction items as [|item items IH]; [done|]. simpl. rewrite IH.
  assert (firstMatch rules item = None) as ->; [|done].
  apply firstMatch_None. intros rule Hr. unfold ruleHits.
  apply ruleMatches_other_type. rewrite Forall_forall in Hall. by apply Hall.
Qed.

(** X26.  An [exclude_keyword] rule with a non-empty pattern drops every
    item whose title contains the pattern, letter case aside. *)
Theorem exclude_keyword_drops rules items rule p item t :
  rule ∈ rules →
  rule_type rule = "exclude_keyword" →
  rule_pattern rule = Some p →
  p ≠ "" →
  title item = Some t →
  includes (toLowerCase t) (toLowerCase p) = true →
  item ∉ (filterByRules rules items).1.
Proof.
  intros Hin Hty Hpat Hp Ht Hinc Hkept.
  unfold filterByRules in Hkept.
  destruct rules as [|r rules]; [by apply elem_of_nil in Hin|].
  replace (0 <? length (r :: rules))%nat with true in Hkept by done.
  rewrite applyRules_kept in Hkept.
  apply list_elem_of_filter in Hkept as [Hnone _].
  pose proof (proj1 (firstMatch_None _ _) Hnone rule Hin) as Hhit.
  unfold ruleHits, ruleMatches in Hhit. rewrite Hpat, Hty, Ht in Hhit.
  simpl in Hhit. destruct p as [|c p]; [done|]. simpl in Hhit.
  simpl in Hinc. rewrite Hinc in Hhit. done.
Qed.

End RuleFacts.

Section SaveFacts.

Implicit Types (st : SaveState) (updates : list LlmUpdate).

Lemma newUpdateOf_keys allItems today update analysis :
  savedTitleKey (newUpdateOf allItems today update analysis)
    = normKey (lu_title update)
  ∧ (nonEmptyKey (normKey (lu_source_url update)) →
     savedUrlKey (newUpdateOf allItems today update analysis)
       = normKey (lu_source_url update))
  ∧ (nonEmptyKey (savedUrlKey (newUpdateOf allItems today update analysis)) →
     savedUrlKey (newUpdateOf allItems today update analysis)
       = normKey (lu_source_url update)).
Proof.
  unfold savedTitleKey, savedUrlKey, newUpdateOf. simpl.
  split; [done|]. destruct (lu_source_url update); simpl; [done|].
  split; [by intros ?|]. unfold nonEmptyKey. by vm_compute.
Qed.

Lemma saveStep_inv allItems today eT eU createFails n st turn :
  saveInv eT eU n st →
  saveInv eT eU (S n) (saveStep allItems today eT eU createFails st turn).
Proof.
  intros (Hlen & Ht & Hu & Hnt & Hnu & Hex). unfold saveStep.
  set (update := turn.1). set (analysis := default noAnalysis turn.2).
  set (tk := normKey (lu_title update)).
  set (uk := normKey (lu_source_url update)).
  destruct (bool_decide (tk ∈ eT) || bool_decide (tk ∈ savedTitlesThisBatch st))
    eqn:Edup.
  { split; [simpl; rewrite length_app; simpl; lia|done]. }
  apply orb_false_iff in Edup as [HtE%bool_decide_eq_false HtS%bool_decide_eq_false].
  destruct (truthyOpt uk && (bool_decide (uk ∈ eU)
                             || bool_decide (uk ∈ savedUrlsThisBatch st))) eqn:Eurl.
  { split; [simpl; rewrite length_app; simpl; lia|done]. }
  set (record := newUpdateOf allItems today update analysis).
  destruct (createFails record) as [msg|].
  { split; [simpl; rewrite length_app; simpl; lia|done]. }
  destruct (newUpdateOf_keys allItems today update analysis) as (Kt & Ku & Ku').
  fold record tk uk in Kt, Ku, Ku'.
  assert (nonEmptyKey uk → (uk ∉ eU) ∧ (uk ∉ savedUrlsThisBatch st)) as Hfresh.
  { intros Hne. unfold nonEmptyKey in Hne. rewrite Hne in Eurl. simpl in Eurl.
    apply orb_false_iff in Eurl as [?%bool_decide_eq_false ?%bool_decide_eq_false].
    done. }
  split; [simpl; rewrite length_app; simpl; lia|]. simpl.
  split; [|split; [|split; [|split]]].
  - intros k. rewrite fmap_app, elem_of_app, elem_of_union, elem_of_singleton.
    simpl. rewrite list_elem_of_singleton, Kt, Ht. tauto.
  - intros k Hk. rewrite fmap_app, elem_of_app. simpl.
    rewrite list_elem_of_singleton.
    destruct (truthyOpt uk) eqn:Euk.
    + rewrite elem_of_union, elem_of_singleton, (Ku Euk), (Hu k Hk). tauto.
    + rewrite (Hu k Hk). split; [tauto|]. intros [?|Heq]; [done|].
      subst k. specialize (Ku' Hk). rewrite Ku' in Hk.
      unfold nonEmptyKey in Hk. congruence.
  - rewrite fmap_app. apply NoDup_app. split; [done|]. split; [|apply NoDup_singleton].
    intros k Hk Hk'%list_elem_of_singleton. subst k.
    apply HtS, Ht. by rewrite <- Kt.
  - rewrite fmap_app, filter_app. apply NoDup_app. split; [done|]. simpl.
    rewrite filter_cons, filter_nil.
    destruct (decide (nonEmptyKey (savedUrlKey record))) as [Hne|Hne];
      [|split; [by intros ? ? ?%elem_of_nil|constructor]].
    split; [|apply NoDup_singleton].
    intros k [Hk Hin]%list_elem_of_filter Hk'%list_elem_of_singleton. subst k.
    pose proof (Ku' Hne) as Heq. rewrite Heq in Hne, Hin.
    destruct (Hfresh Hne) as [_ Hns]. apply Hns. by apply Hu.
  - intros r [Hr| ->%list_elem_of_singleton]%elem_of_app; [by apply Hex|].
    rewrite Kt. split; [done|]. intros Hne.
    pose proof (Ku' Hne) as Heq. rewrite Heq in Hne |- *.
    by destruct (Hfresh Hne).
Qed.

Lemma foldl_saveStep_inv allItems today eT eU createFails turns :
  ∀ n st, saveInv eT eU n st →
  saveInv eT eU (n + length turns)
    (foldl (saveStep allItems today eT eU createFails) st turns).
Proof.
  induction turns as [|turn turns IH]; intros n st Hinv; simpl.
  - by rewrite Nat.add_0_r.
  - replace (n + S (length turns))%nat with (S n + length turns)%nat by lia.
    apply IH. by apply saveStep_inv.
Qed.

Lemma saveUpdates_inv allItems today store invoke createFails updates :
  ∃ eT eU,
    saveInv eT eU (length updates)
      (saveUpdates allItems today store invoke createFails updates)
    ∧ (store_up store = true →
       eT = keySet (λ u, normKey (u_title u)) (store_records store)
       ∧ eU = keySet (λ u, normKey (u_source_url u)) (store_records store)).
Proof.
  unfold saveUpdates, RegulatoryUpdate_filter_all.
  assert (∀ eT eU, saveInv eT eU 0 (mkSaveState ∅ ∅ [] [])) as Hstart.
  { intros eT eU. split; [done|]. simpl.
    split; [intros k; set_solver|]. split; [intros k _; set_solver|].
    split; [constructor|]. split; [constructor|]. intros r Hr. inversion Hr. }
  assert (length (zip updates (secondaryAnalysis invoke <$> updates))
          = length updates) as Hzip.
  { rewrite length_zip_with, length_fmap. lia. }
  destruct (store_up store); eexists _, _; (split; [|by intros]);
    rewrite <- Hzip;
    apply (foldl_saveStep_inv _ _ _ _ _ _ 0%nat); apply Hstart.
Qed.

(** X27.  The save loop accounts for every update of the classification
    result: each one is either saved or leaves one message (skipped as a
    duplicate, or failed to save), so saved records and messages add up to
    the number of updates. *)
Theorem save_loop_accounts_for_all allItems today store invoke createFails updates :
  let st := saveUpdates allItems today store invoke createFails updates in
  (length (savedUpdates st) + length (saveErrors st) = length updates)%nat.
Proof.
  intros st.
  destruct (saveUpdates_inv allItems today store invoke createFails updates)
    as (eT & eU & (Hlen & _) & _). done.
Qed.

(** X28.  The save loop keeps the store free of duplicates: when the fresh
    query of the store succeeds and no two stored records share a non-empty
    normalized title (or a non-empty normalized URL), the same holds for
    the store with the saved records added. *)
Theorem save_loop_keeps_store_unique allItems today recs invoke createFails
    updates created :
  let st := saveUpdates allItems today (mkStore true recs) invoke createFails
              updates in
  let stored := recs ++ (asStored created <$> savedUpdates st) in
  (NoDup (filter nonEmptyKey ((λ u, normKey (u_title u)) <$> recs)) →
   NoDup (filter nonEmptyKey ((λ u, normKey (u_title u)) <$> stored)))
  ∧ (NoDup (filter nonEmptyKey ((λ u, normKey (u_source_url u)) <$> recs)) →
     NoDup (filter nonEmptyKey ((λ u, normKey (u_source_url u)) <$> stored))).
Proof.
  intros st stored.
  destruct (saveUpdates_inv allItems today (mkStore true recs) invoke createFails
              updates) as (eT & eU & (_ & _ & _ & Hnt & Hnu & Hex) & Hsets).
  destruct (Hsets eq_refl) as [-> ->]. fold st in Hnt, Hnu, Hex.
  simpl in Hex. unfold stored.
  rewrite !fmap_app, !filter_app, <- !list_fmap_compose.
  split; intros Hrecs; apply NoDup_app; (split; [done|]); split.
  - intros k [Hk Hin]%list_elem_of_filter
      [_ (r & -> & Hr)%list_elem_of_fmap]%list_elem_of_filter.
    destruct (Hex r Hr) as [Hfresh _]. apply Hfresh.
    unfold keySet. rewrite elem_of_list_to_set, list_elem_of_filter. done.
  - apply NoDup_filter. exact Hnt.
  - intros k [Hk Hin]%list_elem_of_filter
      [_ (r & -> & Hr)%list_elem_of_fmap]%list_elem_of_filter.
    destruct (Hex r Hr) as [_ Hfresh]. apply (Hfresh Hk).
    unfold keySet. rewrite elem_of_list_to_set, list_elem_of_filter. done.
  - exact Hnu.
Qed.

Lemma saveStep_origin allItems today eT eU createFails st turn (P : NewUpdate → Prop) :
  P (newUpdateOf allItems today turn.1 (default noAnalysis turn.2)) →
  Forall P (savedUpdates st) →
  Forall P (savedUpdates (saveStep allItems today eT eU createFails st turn)).
Proof.
  intros Hnew Hall. unfold saveStep.
  repeat (case_match; simpl; try done).
  apply Forall_app. split; [done|]. by apply Forall_singleton.
Qed.

Lemma zip_fmap_self {A B} (f : A → B) (l : list A) :
  zip l (f <$> l) = (λ a, (a, f a)) <$> l.
Proof. induction l as [|a l IH]; [done|]. simpl. f_equal. exact IH. Qed.

(** X29.  Every saved record is built from an update of the classification
    result; and unless that update is a ruling or an enforcement, no
    secondary analysis is asked for and the record's analysis fields are
    the defaults ([false], no parties, empty strings). *)
Theorem saved_records_origin allItems today store invoke createFails updates :
  let st := saveUpdates allItems today store invoke createFails updates in
  Forall (λ r, ∃ u, u ∈ updates
               ∧ r = newUpdateOf allItems today u
                       (default noAnalysis (secondaryAnalysis invoke u))
               ∧ nu_title r = lu_title u
               ∧ (lu_update_type u ≠ Some "Ruling" →
                  lu_update_type u ≠ Some "Enforcement" →
                  nu_is_court_decision_or_enforcement r = false
                  ∧ nu_involved_parties r = []
                  ∧ nu_enforcement_type r = "" ∧ nu_legal_field r = ""
                  ∧ nu_possible_implications r = "" ∧ nu_trend_analysis r = ""))
         (savedUpdates st).
Proof.
  intros st. unfold st, saveUpdates.
  destruct (match RegulatoryUpdate_filter_all store with
            | Ok freshExisting => _ | Throw _ => _ end) as [eT eU].
  set (P := λ r, ∃ u, u ∈ updates ∧ _).
  assert (∀ turns st0,
    Forall (λ turn, turn.1 ∈ updates
                    ∧ turn.2 = secondaryAnalysis invoke turn.1) turns →
    Forall P (savedUpdates st0) →
    Forall P (savedUpdates (foldl (saveStep allItems today eT eU createFails)
                              st0 turns))) as Hloop.
  { induction turns as [|turn turns IH]; intros st0 Hturns Hst0; [done|].
    apply Forall_cons in Hturns as [[Hin Hsec] Hturns]. simpl.
    apply IH; [done|]. apply saveStep_origin; [|done].
    exists turn.1. split; [done|]. rewrite Hsec. split; [done|]. split; [done|].
    intros Hr He. unfold secondaryAnalysis.
    destruct (lu_update_type turn.1) as [ty|]; [|done].
    destruct (decide (ty = "Ruling")) as [->|]; [done|].
    destruct (decide (ty = "Enforcement")) as [->|]; [done|].
    assert ((match ty with
             | "Ruling" | "Enforcement" => invoke turn.1
             | _ => None
             end) = None) as ->; [|done].
    clear -n n0. repeat (case_match; try done); subst; done. }
  apply Hloop; [|constructor].
  rewrite zip_fmap_self.
  apply Forall_forall. by intros turn (u & -> & Hu)%list_elem_of_fmap.
Qed.

End SaveFacts.

Section EnrichPhaseFacts.
Context `{Platform}.
Variable net : Network.

(** X30.  The enrichment phase touches the first 15 items only and leaves
    every deduplication key as it was: the list keeps its length, the items
    from the 16th on are unchanged, and the normalized titles and URLs are
    those before the phase, so a batch without duplicates stays without
    duplicates. *)
Theorem enrich_phase_keeps_keys (allItems : list Item) :
  let out := enrichPhase net allItems in
  length out = length allItems
  ∧ drop 15 out = drop 15 allItems
  ∧ titleKey <$> out = titleKey <$> allItems
  ∧ urlKey <$> out = urlKey <$> allItems.
Proof.
  intros out. unfold out, enrichPhase.
  set (f := λ item, (enrichArticleContent net item).1).
  assert (∀ item, titleKey (f item) = titleKey item
                  ∧ urlKey (f item) = urlKey item) as Hkeys.
  { intros item. pose proof (enrichArticleContent_changes net item) as Hc.
    simpl in Hc. destruct Hc as (Ht & Hl & _).
    unfold titleKey, urlKey, f. by rewrite Ht, Hl. }
  assert (length (f <$> take 15 allItems) = length (take 15 allItems)) as Hlen
    by apply length_fmap.
  split; [|split; [|split]].
  - rewrite length_app, Hlen, <- length_app. by rewrite take_drop.
  - rewrite drop_app, Hlen, length_take.
    rewrite (drop_ge (f <$> _)) by (rewrite Hlen, length_take; lia).
    rewrite app_nil_l.
    destruct (decide (15 ≤ length allItems)%nat).
    + by replace (15 - 15 `min` length allItems)%nat with 0%nat by lia.
    + rewrite (drop_ge allItems) by lia. by rewrite drop_nil.
  - rewrite fmap_app, <- list_fmap_compose.
    rewrite <- (take_drop 15 allItems) at 3. rewrite fmap_app. f_equal.
    apply list_fmap_ext. intros ? item _. apply Hkeys.
  - rewrite fmap_app, <- list_fmap_compose.
    rewrite <- (take_drop 15 allItems) at 3. rewrite fmap_app. f_equal.
    apply list_fmap_ext. intros ? item _. apply Hkeys.
Qed.

End EnrichPhaseFacts.

Section HistoryFacts.

Lemma deduplicateItems_take500 now items (recs : list RegulatoryUpdate) :
  deduplicateItems now items (mkStore true recs) =
  deduplicateItems now items (mkStore true (take 500 recs)).
Proof.
  unfold deduplicateItems, RegulatoryUpdate_filter_all. simpl.
  destruct (length (batchDedupe items) =? 0)%nat; [done|].
  rewrite length_take.
  replace (500 <? 500 `min` length recs)%nat with false
    by (symmetry; apply Nat.ltb_ge; lia).
  destruct (500 <? length recs)%nat eqn:E; [done|].
  apply Nat.ltb_ge in E. by rewrite take_ge by lia.
Qed.

(** X18.  When the store answers, an item survives the history check
    exactly when it survived the batch walk and neither its non-empty
    normalized title nor its non-empty normalized URL is the key of one of
    the first 500 records returned: a record beyond the 500th never blocks
    an item, and an empty key never matches. *)
Theorem history_check_exact now items (recs : list RegulatoryUpdate) (x : Item) :
  x ∈ deduplicateItems now items (mkStore true recs) ↔
  x ∈ batchDedupe items
  ∧ ¬ (nonEmptyKey (titleKey x)
       ∧ titleKey x ∈ (λ u, normKey (u_title u)) <$> take 500 recs)
  ∧ ¬ (nonEmptyKey (urlKey x)
       ∧ urlKey x ∈ (λ u, normKey (u_source_url u)) <$> take 500 recs).
Proof.
  rewrite deduplicateItems_take500. apply history_check_drops.
  rewrite length_take. lia.
Qed.

End HistoryFacts.

(* ===================================================================== *)
(** * The further theorems at sample inputs                               *)
(* ===================================================================== *)

(** A server that answers 200 at once. *)
Lemma success_is_ok_response_witness :
  200 ≤ status (mkResponse 200 None "") ≤ 299
  ∧ (1 ≤ 1 ≤ 3)%nat
  ∧ respond (serverAlways 200 "") (feed_url ftcFeed) (1 - 1)
    = Responded (mkResponse 200 None "").
Proof.
  apply (@success_is_ok_response barePlatform (serverAlways 200 "")
           (feed_url ftcFeed) 3 (mkResponse 200 None "") 1
           [EvFetch (feed_url ftcFeed)]).
  reflexivity.
Defined.


(** A server that always answers 503: three fetches, sleeps of 1 s and
    2 s. *)
Lemma transient_failures_back_off_witness :
  let res := @fetchWithRetry barePlatform (serverAlways 503 "") (feed_url ftcFeed) 3 in
  res.1 = FetchFailed
            (Some (errorOf (respond (serverAlways 503 "") (feed_url ftcFeed) (3 - 1))))
            3
  ∧ fetchCount res.2 = 3%nat
  ∧ sleepsOf res.2 = (λ k, 2 ^ Z.of_nat k * 1000) <$> seq 0 (3 - 1).
Proof.
  apply (@transient_failures_back_off barePlatform (serverAlways 503 "")
           (feed_url ftcFeed) 3).
  - lia.
  - intros k Hk. simpl. split; [reflexivity|lia].
Defined.

(** A date within the last 14 days is within the last 30. *)
Lemma wider_range_keeps_witness :
  @isWithinDateRange barePlatform day100 day100Iso 30 = true.
Proof.
  apply (@wider_range_keeps barePlatform day100 day100Iso 14 30).
  - lia.
  - reflexivity.
Defined.

(** The sample page in regex-only mode. *)
Lemma regex_only_mode_filtering_witness :
  let out := sr_items (@scrapeWebsite headlinePlatform (serverAlways 200 "")
                         regexConfig day100) in
  (length out ≤ 20)%nat ∧ Forall regexTitleOk out ∧ NoDup (lowerTitle <$> out).
Proof.
  apply (@regex_only_mode_filtering headlinePlatform (serverAlways 200 "")
           regexConfig day100 (mkResponse 200 None "") 1 pagePattern).
  - reflexivity.
  - reflexivity.
  - reflexivity.
Defined.

(** [itemB], dropped from the sample batch, has [itemA]'s URL. *)
Lemma dropped_items_are_represented_witness :
  ∃ y, y ∈ batchDedupe dupBatch ∧ (y = itemB ∨ sameKey y itemB).
Proof.
  apply (dropped_items_are_represented dupBatch itemB).
  apply elem_of_cons. right. apply elem_of_cons. left. reflexivity.
Defined.


(** The selection [ftc]. *)
Lemma selection_goes_by_static_name_witness :
  (∀ feeds feed,
     feed ∈ selectRssFeeds (Some ["ftc"]) feeds ↔
     feed ∈ feeds
     ∧ ∃ id, id ∈ ["ftc"] ∧ lookupStatic id staticSourceIdMap = Some (feed_name feed))
  ∧ (∀ configs config,
     config ∈ selectScrapeConfigs (Some ["ftc"]) configs ↔
     config ∈ configs
     ∧ ∃ id, id ∈ ["ftc"] ∧ lookupStatic id staticSourceIdMap = Some (c_name config)).
Proof.
  apply (selection_goes_by_static_name ["ftc"]). discriminate.
Defined.

(** Five items in chunks of two. *)
Lemma chunkArray_partitions_witness :
  concat (chunkArray [1; 2; 3; 4; 5] 2) = [1; 2; 3; 4; 5]
  ∧ length (chunkArray [1; 2; 3; 4; 5] 2) = ceilDiv (length [1; 2; 3; 4; 5]) 2
  ∧ Forall (λ chunk, (1 ≤ length chunk ≤ 2)%nat) (chunkArray [1; 2; 3; 4; 5] 2).
Proof. apply (chunkArray_partitions [1; 2; 3; 4; 5] 2). lia. Defined.

(** An inclusion rule alone leaves the batch as it is. *)
Lemma inclusion_rules_filter_nothing_witness :
  filterByRules [privacyHint] dupBatch = (dupBatch, []).
Proof.
  apply (inclusion_rules_filter_nothing [privacyHint] dupBatch).
  constructor; [|constructor].
  intros Hin. unfold excludeTypes in Hin.
  repeat (apply elem_of_cons in Hin as [Hin|Hin]; [discriminate|]).
  inversion Hin.
Defined.

(** The rule [Grocery] drops "Grocery Merger Blocked". *)
Lemma exclude_keyword_drops_witness :
  groceryItem ∉ (filterByRules [privacyHint; groceryRule] [itemA; groceryItem]).1.
Proof.
  apply (exclude_keyword_drops [privacyHint; groceryRule] [itemA; groceryItem]
           groceryRule "Grocery" groceryItem "Grocery Merger Blocked").
  - apply elem_of_cons. right. apply elem_of_cons. left. reflexivity.
  - reflexivity.
  - reflexivity.
  - discriminate.
  - reflexivity.
  - reflexivity.
Defined.
